(** * Epicast email templates: a shallow embedding of [epicast_emails.py]

    The module [src/epicast/epicast_emails.py] holds the class
    [EpicastEmails]: a namespace of template strings ([Template]) and the
    static methods [prepare], [compose], [get_alert], [get_notification]
    and [get_reminder].

    Python [str] values are modelled as lists of Unicode code points
    ([N]); the string methods the module calls ([split], [strip], [join],
    [replace], the [%] operator) are written out as functions on such
    lists.  The class attributes live in a store that every method
    receives and returns, exceptions are a result type. *)

From Stdlib Require Import Ascii String DecimalString ZArith NArith Bool Lia List.
Import ListNotations.

(* ================================================================== *)
(** ** Python strings *)

Module Py.

Definition char := N.
Definition str := list char.

(** A source literal without double quotes. *)
Definition lit (x : string) : str := map N_of_ascii (list_ascii_of_string x).
Arguments lit x%_string.

Definition LF : char := 10%N.
Definition CR : char := 13%N.
(** The double quote character, which a literal cannot hold. *)
Definition dq : str := [34%N].

Definition char_eqb (a b : char) : bool := N.eqb a b.

Fixpoint str_eqb (a b : str) : bool :=
  match a, b with
  | [], [] => true
  | x :: a', y :: b' => char_eqb x y && str_eqb a' b'
  | _, _ => false
  end.

(** [str.isspace] on one code point, the set [str.strip()] removes in
    Python 3: the ASCII controls 9 to 13 and 28 to 31, the space, and
    the Unicode characters of bidirectional class WS, B or S or of
    category Zs (U+0085, U+00A0, U+1680, U+2000 to U+200A, U+2028,
    U+2029, U+202F, U+205F, U+3000).  The results below use of this set
    only that CR and LF are in it and what it says of the characters of
    the templates. *)
Definition is_space (c : char) : bool :=
  ((9 <=? c) && (c <=? 13) || (28 <=? c) && (c <=? 32)
   || (c =? 133) || (c =? 160) || (c =? 5760)
   || (8192 <=? c) && (c <=? 8202)
   || (c =? 8232) || (c =? 8233) || (c =? 8239) || (c =? 8287)
   || (c =? 12288))%N.

(** [s.lstrip()] *)
Fixpoint lstrip (s : str) : str :=
  match s with
  | [] => []
  | c :: s' => if is_space c then lstrip s' else s
  end.

(** [s.rstrip()] *)
Definition rstrip (s : str) : str := rev (lstrip (rev s)).

(** [s.strip()] *)
Definition strip (s : str) : str := rstrip (lstrip s).

(** [s.split(sep)] for a separator of one character, which is how the
    module calls it; the result is never empty. *)
Fixpoint split (sep : char) (s : str) : list str :=
  match s with
  | [] => [[]]
  | c :: s' =>
      if char_eqb c sep then [] :: split sep s'
      else match split sep s' with
           | l :: ls => (c :: l) :: ls
           | [] => [[c]]
           end
  end.

(** [sep.join(ls)] *)
Fixpoint join (sep : str) (ls : list str) : str :=
  match ls with
  | [] => []
  | l :: ls' =>
      match ls' with
      | [] => l
      | _ :: _ => l ++ sep ++ join sep ls'
      end
  end.

(** [s.startswith(p)] *)
Fixpoint startswith (p s : str) : bool :=
  match p, s with
  | [], _ => true
  | _ :: _, [] => false
  | a :: p', b :: s' => char_eqb a b && startswith p' s'
  end.

(** [m in s] *)
Fixpoint contains (m s : str) : bool :=
  startswith m s ||
  match s with
  | [] => false
  | _ :: s' => contains m s'
  end.

(** The scan of [s.replace(old, new)] for a non-empty [old]: [skip]
    counts the characters of a match that are still to be passed over. *)
Fixpoint replace_go (old new : str) (skip : nat) (s : str) : str :=
  match s with
  | [] => []
  | c :: s' =>
      match skip with
      | S k => replace_go old new k s'
      | O =>
          if startswith old s
          then new ++ replace_go old new (length old - 1) s'
          else c :: replace_go old new 0 s'
      end
  end.

(** [s.replace(old, new)]: every occurrence, left to right, without
    overlap; an empty [old] matches before every character and at the
    end. *)
Definition replace (old new s : str) : str :=
  match old with
  | [] => new ++ flat_map (fun c => c :: new) s
  | _ :: _ => replace_go old new 0 s
  end.

(** The scan of [s.count(m)] for a non-empty [m]. *)
Fixpoint count_go (m : str) (skip : nat) (s : str) : nat :=
  match s with
  | [] => 0
  | _ :: s' =>
      match skip with
      | S k => count_go m k s'
      | O =>
          if startswith m s
          then S (count_go m (length m - 1) s')
          else count_go m 0 s'
      end
  end.

(** [s.count(m)] *)
Definition count (m s : str) : nat :=
  match m with
  | [] => S (length s)
  | _ :: _ => count_go m 0 s
  end.

(** [str(z)] for an [int], also what [%d] prints. *)
Definition str_of_int (z : Z) : str :=
  lit (NilZero.string_of_int (Z.to_int z)).

(** *** Exceptions *)

Inductive exn : Type :=
| TypeError
| ValueError
| OutsideFragment.

Inductive result (A : Type) : Type :=
| Ok (a : A)
| Raise (e : exn).
Arguments Ok {A} a.
Arguments Raise {A} e.

(** *** The [%] operator *)

(** The members of the right-hand tuple. *)
Inductive value : Type :=
| VStr (s : str)
| VInt (z : Z).

Definition percent : char := 37%N.
(** The conversion types [s] and [d]. *)
Definition conv_s : char := 115%N.
Definition conv_d : char := 100%N.

(** [fmt % args] with [args] a tuple.  The conversions the templates
    use are modelled: [%s] ([str] of the argument), [%d] (an [int] in
    decimal, a [TypeError] for a string) and [%%].  Too few arguments,
    or arguments left over at the end, are a [TypeError]; a [%] at the
    end of the format is a [ValueError].  Flags, widths and the other
    conversion types are outside the modelled fragment. *)
Fixpoint format (fmt : str) (args : list value) : result str :=
  match fmt with
  | [] =>
      match args with
      | [] => Ok []
      | _ :: _ => Raise TypeError
      end
  | c :: rest =>
      if char_eqb c percent then
        match rest with
        | [] => Raise ValueError
        | k :: rest' =>
            if char_eqb k percent then
              match format rest' args with
              | Ok out => Ok (percent :: out)
              | Raise e => Raise e
              end
            else if char_eqb k conv_s then
              match args with
              | [] => Raise TypeError
              | a :: args' =>
                  match format rest' args' with
                  | Ok out =>
                      Ok (match a with
                          | VStr s => s
                          | VInt z => str_of_int z
                          end ++ out)
                  | Raise e => Raise e
                  end
              end
            else if char_eqb k conv_d then
              match args with
              | [] => Raise TypeError
              | VStr _ :: _ => Raise TypeError
              | VInt z :: args' =>
                  match format rest' args' with
                  | Ok out => Ok (str_of_int z ++ out)
                  | Raise e => Raise e
                  end
              end
            else Raise OutsideFragment
        end
      else
        match format rest args with
        | Ok out => Ok (c :: out)
        | Raise e => Raise e
        end
  end.

End Py.

(* ================================================================== *)
(** ** The class [EpicastEmails] *)

Module EpicastEmails.
Import Py.

(** *** The namespace [Template] *)

(** A triple-quoted literal, line by line: it opens with a line break
    and closes on the indentation of its last line. *)
Definition block (lines : list str) : str := join [LF] lines.

(** The dictionaries with the keys ['text'] and ['html']. *)
Record Fragment : Type := {
  frag_text : str;
  frag_html : str
}.

(** The dictionaries with the keys ['subject'], ['text'] and ['html']. *)
Record Message : Type := {
  msg_subject : str;
  msg_text : str;
  msg_html : str
}.

(** The attributes of the class [Template]. *)
Record Templates : Type := {
  SUBJECT_TAG : str;
  UNSUBSCRIBE : Fragment;
  ALERT : Message;
  SCORE : Fragment;
  NOTIFICATION : Message;
  REMINDER : Message
}.

Definition SUBJECT_TAG_literal : str := lit "[Crowdcast]".

Definition UNSUBSCRIBE_text : str := block
  [ lit "";
    lit "        ----------";
    lit "";
    lit "        [This is an automated message. To edit your email preferences or to";
    lit "        stop receiving these emails, follow the unsubscribe link below.]";
    lit "";
    lit "        Unsubscribe: https://delphi.cmu.edu/crowdcast/preferences.php?user=%s";
    lit "      " ].

Definition UNSUBSCRIBE_html : str := block
  [ lit "";
    lit "        <hr>";
    lit "        <p style=" ++ dq ++ lit "color: #666; font-size: 0.8em;" ++ dq ++ lit ">";
    lit "          [This is an automated message. To edit your email preferences or to";
    lit "          stop receiving these emails, click the unsubscribe link below.]";
    lit "          <br>";
    lit "          <a href=" ++ dq ++ lit "https://delphi.cmu.edu/crowdcast/preferences.php?user=%s" ++ dq ++ lit ">";
    lit "          Unsubscribe</a>";
    lit "        </p>";
    lit "      " ].

Definition ALERT_subject : str :=
  lit "Crowdcast Needs Your Help".

Definition ALERT_text : str := block
  [ lit "";
    lit "        Dear %s,";
    lit "";
    lit "        [alert text here]";
    lit "";
    lit "        -The DELPHI Team";
    lit "      " ].

Definition ALERT_html : str := block
  [ lit "";
    lit "        <p>";
    lit "          Dear %s,";
    lit "        </p><p>";
    lit "          [alert text here]";
    lit "        </p><p>";
    lit "          -The DELPHI Team";
    lit "        </p>";
    lit "      " ].

Definition SCORE_text : str := block
  [ lit "";
    lit "        Your overall score is: %d (ranked #%d)";
    lit "";
    lit "        Note: To be listed on the leaderboards, simply enter your initials on";
    lit "        the preferences page at";
    lit "        https://delphi.cmu.edu/crowdcast/preferences.php?user=%s";
    lit "";
    lit "        You can find the leaderboards at";
    lit "        https://delphi.cmu.edu/crowdcast/scores.php";
    lit "      " ].

Definition SCORE_html : str := block
  [ lit "";
    lit "        <p>";
    lit "          Your overall score is: %d (<i>ranked #%d</i>)";
    lit "          <br>";
    lit "          Note: To be listed on the <a";
    lit "          href=" ++ dq ++ lit "https://delphi.cmu.edu/crowdcast/scores.php" ++ dq ++ lit ">leaderboards</a>,";
    lit "          simply enter your initials on the preferences page <a";
    lit "          href=" ++ dq ++ lit "https://delphi.cmu.edu/crowdcast/preferences.php?user=%s" ++ dq ++ lit ">";
    lit "          here</a>.";
    lit "        </p>";
    lit "      " ].

Definition NOTIFICATION_subject : str :=
  lit "New Data Available (Deadline: Monday 10 AM)".

Definition NOTIFICATION_text : str := block
  [ lit "";
    lit "        Dear %s,";
    lit "";
    lit "        The CDC has released another week of influenza-like-illness (ILI)";
    lit "        surveillance data. A new round of covid19-related forecasting is now";
    lit "        underway, and we need your forecasts! We are asking you to please";
    lit "        submit your forecasts by 10:00 AM (ET) this coming Monday. Thank you so";
    lit "        much for your support and cooperation!";
    lit "";
    lit "        To login and submit your forecasts, visit";
    lit "        https://delphi.cmu.edu/crowdcast/";
    lit "        and enter your User ID: %s";
    lit "";
    lit "        {SCORE}";
    lit "";
    lit "        Thank you again for your participation, and good luck on your";
    lit "        forecasts!";
    lit "";
    lit "        Happy Forecasting!";
    lit "        -The DELPHI Team";
    lit "      " ].

Definition NOTIFICATION_html : str := block
  [ lit "";
    lit "        <p>";
    lit "          Dear %s,";
    lit "        </p><p>";
    lit "          The CDC has released another week of influenza-like-illness (ILI)";
    lit "          surveillance data. A new round of covid19-related forecasting is now";
    lit "          underway, and we need your forecasts! We are asking you to please";
    lit "          submit your forecasts by <b>10:00 AM (ET)</b> this coming Monday.";
    lit "          Thank you so much for your support and cooperation!";
    lit "        </p><p>";
    lit "          To login and submit your forecasts, click <a";
    lit "          href=" ++ dq ++ lit "https://delphi.cmu.edu/crowdcast/launch.php?user=%s" ++ dq ++ lit ">here</a>";
    lit "          or visit https://delphi.cmu.edu/crowdcast/ and enter your User ID: %s";
    lit "        </p>{SCORE}<p>";
    lit "          Thank you again for your participation, and good luck on your";
    lit "          forecasts!";
    lit "        </p><p>";
    lit "          Happy Forecasting!";
    lit "          <br>";
    lit "          -The DELPHI Team";
    lit "        </p>";
    lit "      " ].

Definition REMINDER_subject : str :=
  lit "Forecasts Needed (Deadline: Monday 10AM)".

Definition REMINDER_text : str := block
  [ lit "";
    lit "        Dear %s,";
    lit "";
    lit "        This is just a friendly reminder that your influenza-like-illness (ILI)";
    lit "        forecasts are due by 10:00AM (ET) on Monday. Thank you so much for your";
    lit "        support and cooperation!";
    lit "";
    lit "        To login and submit your forecasts, visit";
    lit "        https://delphi.cmu.edu/crowdcast and enter your User ID: %s.";
    lit "";
    lit "        Happy Forecasting!";
    lit "";
    lit "        -The DELPHI Team";
    lit "      " ].

Definition REMINDER_html : str := block
  [ lit "";
    lit "        <p>";
    lit "          Dear %s,";
    lit "        </p><p>";
    lit "          This is just a friendly reminder that your influenza-like-illness";
    lit "          (ILI) forecasts are due by <b>10:00AM (ET) on Monday</b>. Thank you";
    lit "          so much for your support and cooperation!";
    lit "        </p><p>";
    lit "          To login and submit your forecasts, click <a";
    lit "          href=" ++ dq ++ lit "https://delphi.cmu.edu/crowdcast/launch.php?user=%s" ++ dq ++ lit ">here</a>";
    lit "          or visit https://delphi.cmu.edu/crowdcast/ and enter your User ID: %s";
    lit "        </p><p>";
    lit "          Happy Forecasting!";
    lit "          <br>";
    lit "          -The DELPHI Team";
    lit "        </p>";
    lit "      " ].


(** The class [Template] as the module defines it. *)
Definition Template : Templates := {|
  SUBJECT_TAG := SUBJECT_TAG_literal;
  UNSUBSCRIBE := {| frag_text := UNSUBSCRIBE_text; frag_html := UNSUBSCRIBE_html |};
  ALERT := {| msg_subject := ALERT_subject;
              msg_text := ALERT_text; msg_html := ALERT_html |};
  SCORE := {| frag_text := SCORE_text; frag_html := SCORE_html |};
  NOTIFICATION := {| msg_subject := NOTIFICATION_subject;
                     msg_text := NOTIFICATION_text;
                     msg_html := NOTIFICATION_html |};
  REMINDER := {| msg_subject := REMINDER_subject;
                 msg_text := REMINDER_text; msg_html := REMINDER_html |}
|}.

(** *** Methods: the store of class attributes is threaded through *)

Definition M (A : Type) : Type := Templates -> result A * Templates.

Definition ret {A} (a : A) : M A := fun w => (Ok a, w).

Definition bind {A B} (m : M A) (k : A -> M B) : M B :=
  fun w =>
    match m w with
    | (Ok a, w') => k a w'
    | (Raise e, w') => (Raise e, w')
    end.

(** Reading a class attribute. *)
Definition attr {A} (field : Templates -> A) : M A := fun w => (Ok (field w), w).

(** An expression that may raise. *)
Definition lift {A} (r : result A) : M A := fun w => (r, w).

Notation "x <- m ;; k" := (bind m (fun x => k))
  (at level 61, m at next level, right associativity).

(** The returned tuple [(subject, text, html)]. *)
Definition email : Type := str * str * str.

Definition CRLF : str := [CR; LF].

(** [prepare(text)]:
    ['\r\n'.join([line.strip() for line in text.split('\n')]).strip()] *)
Definition prepare (text : str) : str :=
  strip (join CRLF (map strip (split LF text))).

(** [compose(user_id, subject, text_template, html_template,
    text_values, html_values)] *)
Definition compose (user_id subject text_template html_template : str)
    (text_values html_values : list value) : M email :=
  tag <- attr SUBJECT_TAG ;;
  let final_subject := tag ++ lit " " ++ subject in
  unsubscribe <- attr UNSUBSCRIBE ;;
  let text_template := text_template ++ frag_text unsubscribe in
  let text_values := text_values ++ [VStr user_id] in
  final_text <- lift (format (prepare text_template) text_values) ;;
  unsubscribe <- attr UNSUBSCRIBE ;;
  let html_template := html_template ++ frag_html unsubscribe in
  let html_values := html_values ++ [VStr user_id] in
  final_html <- lift (format (prepare html_template) html_values) ;;
  ret (final_subject, final_text, final_html).

(** [get_alert(user_id, user_name)] *)
Definition get_alert (user_id user_name : str) : M email :=
  template <- attr ALERT ;;
  let values := [VStr user_name] in
  compose user_id (msg_subject template) (msg_text template)
    (msg_html template) values values.

(** The marker ['{SCORE}'] of the notification bodies. *)
Definition SCORE_marker : str := lit "{SCORE}".

(** [get_notification(user_id, user_name, last_score, last_rank,
    total_score, total_rank)] *)
Definition get_notification (user_id user_name : str)
    (last_score last_rank total_score total_rank : Z) : M email :=
  template <- attr NOTIFICATION ;;
  let subject := msg_subject template in
  let text := msg_text template in
  let html := msg_html template in
  let text_values := [VStr user_name; VStr user_id] in
  let html_values := [VStr user_name; VStr user_id; VStr user_id] in
  if (last_score >? 0)%Z then
    score <- attr SCORE ;;
    let text := replace SCORE_marker (frag_text score) text in
    score <- attr SCORE ;;
    let html := replace SCORE_marker (frag_html score) html in
    let score_values := [VInt total_score; VInt total_rank; VStr user_id] in
    let text_values := text_values ++ score_values in
    let html_values := html_values ++ score_values in
    compose user_id subject text html text_values html_values
  else
    let text := replace SCORE_marker [] text in
    let html := replace SCORE_marker [] html in
    compose user_id subject text html text_values html_values.

(** [get_reminder(user_id, user_name)] *)
Definition get_reminder (user_id user_name : str) : M email :=
  template <- attr REMINDER ;;
  let text_values := [VStr user_name; VStr user_id] in
  let html_values := [VStr user_name; VStr user_id; VStr user_id] in
  compose user_id (msg_subject template) (msg_text template)
    (msg_html template) text_values html_values.

(** *** Calls of the three public operations *)

Inductive call : Type :=
| Alert (user_id user_name : str)
| Notification (user_id user_name : str)
    (last_score last_rank total_score total_rank : Z)
| Reminder (user_id user_name : str).

Definition exec (c : call) : M email :=
  match c with
  | Alert user_id user_name => get_alert user_id user_name
  | Notification user_id user_name ls lr ts tr =>
      get_notification user_id user_name ls lr ts tr
  | Reminder user_id user_name => get_reminder user_id user_name
  end.

(** The result of a call made on the module as it is loaded. *)
Definition run (c : call) : result email := fst (exec c Template).

Definition user_of (c : call) : str :=
  match c with
  | Alert u _ | Notification u _ _ _ _ _ | Reminder u _ => u
  end.

End EpicastEmails.

(* ================================================================== *)
(** ** Vocabulary of the properties *)

Module Shape.
Import Py EpicastEmails.

(** *** Format strings cut into literal runs and conversions *)

Inductive conv : Type := ConvS | ConvD.

Inductive piece : Type :=
| Lit (s : str)
| Hole (k : conv).

Definition push (c : char) (ps : list piece) : list piece :=
  match ps with
  | Lit s :: ps' => Lit (c :: s) :: ps'
  | _ => Lit [c] :: ps
  end.

(** The pieces of a format string of the modelled fragment. *)
Fixpoint parse (fmt : str) : option (list piece) :=
  match fmt with
  | [] => Some []
  | c :: rest =>
      if char_eqb c percent then
        match rest with
        | [] => None
        | k :: rest' =>
            if char_eqb k percent then option_map (push percent) (parse rest')
            else if char_eqb k conv_s then option_map (cons (Hole ConvS)) (parse rest')
            else if char_eqb k conv_d then option_map (cons (Hole ConvD)) (parse rest')
            else None
        end
      else option_map (push c) (parse rest)
  end.

(** What a conversion prints for a value. *)
Definition render (a : value) : str :=
  match a with
  | VStr s => s
  | VInt z => str_of_int z
  end.

(** The pieces filled with the arguments, left to right. *)
Fixpoint fill (ps : list piece) (args : list value) : result str :=
  match ps with
  | [] =>
      match args with
      | [] => Ok []
      | _ :: _ => Raise TypeError
      end
  | Lit s :: ps' =>
      match fill ps' args with
      | Ok out => Ok (s ++ out)
      | Raise e => Raise e
      end
  | Hole k :: ps' =>
      match args with
      | [] => Raise TypeError
      | a :: args' =>
          match k, a with
          | ConvD, VStr _ => Raise TypeError
          | _, _ =>
              match fill ps' args' with
              | Ok out => Ok (render a ++ out)
              | Raise e => Raise e
              end
          end
      end
  end.

(** The arguments are as many as the conversions and of their types. *)
Fixpoint accepts (ps : list piece) (args : list value) : bool :=
  match ps with
  | [] => match args with [] => true | _ :: _ => false end
  | Lit _ :: ps' => accepts ps' args
  | Hole k :: ps' =>
      match args with
      | [] => false
      | a :: args' =>
          match k, a with
          | ConvD, VStr _ => false
          | _, _ => accepts ps' args'
          end
      end
  end.

Definition accepted (fmt : str) (args : list value) : bool :=
  match parse fmt with
  | Some ps => accepts ps args
  | None => false
  end.

(** No literal holds the character [c], and what follows a conversion
    is the end or a literal whose first character is not in [m']: a
    string [c :: m'] can then occur in the output only inside a value. *)
Fixpoint safe_shape (c : char) (m' : str) (ps : list piece) : bool :=
  match ps with
  | [] => true
  | Lit s :: ps' => negb (existsb (char_eqb c) s) && safe_shape c m' ps'
  | Hole _ :: ps' =>
      match ps' with
      | [] => true
      | Lit (x :: _) :: _ => negb (existsb (char_eqb x) m')
      | _ => false
      end && safe_shape c m' ps'
  end.

Definition safe_format (m fmt : str) : bool :=
  match m, parse fmt with
  | c :: m', Some ps => safe_shape c m' ps
  | _, _ => false
  end.

(** The pieces with a letter in place of every conversion. *)
Definition hole_char : char := 120%N.

Fixpoint abstract (ps : list piece) : str :=
  match ps with
  | [] => []
  | Lit s :: ps' => s ++ abstract ps'
  | Hole _ :: ps' => hole_char :: abstract ps'
  end.

Definition skeleton (fmt : str) : str :=
  match parse fmt with
  | Some ps => abstract ps
  | None => []
  end.

(** *** Blank lines at the ends of a list of lines *)

Definition is_empty (s : str) : bool :=
  match s with [] => true | _ :: _ => false end.

Fixpoint trim_l (ls : list str) : list str :=
  match ls with
  | [] => []
  | l :: ls' => if is_empty l then trim_l ls' else ls
  end.

Fixpoint trim_r (ls : list str) : list str :=
  match ls with
  | [] => []
  | l :: ls' =>
      match trim_r ls' with
      | [] => if is_empty l then [] else [l]
      | r :: rs => l :: r :: rs
      end
  end.

(** *** Line-normalized strings *)

(** Neither leading nor trailing whitespace. *)
Definition no_outer_space (s : str) : Prop := lstrip s = s /\ rstrip s = s.

Definition clean_line (l : str) : Prop := no_outer_space l /\ ~ In LF l.

(** Lines without leading or trailing whitespace joined with CRLF, the
    whole without leading or trailing whitespace. *)
Definition line_normalized (s : str) : Prop :=
  no_outer_space s /\ exists ls, s = join CRLF ls /\ Forall clean_line ls.

(** A value that brings no whitespace to the edge of a line and no
    line break. *)
Definition clean_value (v : str) : Prop :=
  v <> [] /\ no_outer_space v /\ ~ In LF v.

(** [s.endswith(p)] *)
Definition endswith (p s : str) : Prop := exists pre, s = pre ++ p.

(** [m in s], as a proposition *)
Definition occurs (m s : str) : Prop := exists pre post, s = pre ++ m ++ post.

(** *** The four shapes of a message *)

Inductive kind : Type := KAlert | KScored | KPlain | KReminder.

Definition kind_of (c : call) : kind :=
  match c with
  | Alert _ _ => KAlert
  | Notification _ _ last_score _ _ _ =>
      if (last_score >? 0)%Z then KScored else KPlain
  | Reminder _ _ => KReminder
  end.

(** The body templates [compose] hands to [prepare]. *)
Definition text_template (k : kind) : str :=
  match k with
  | KAlert => msg_text (ALERT Template)
  | KScored =>
      replace SCORE_marker (frag_text (SCORE Template))
        (msg_text (NOTIFICATION Template))
  | KPlain => replace SCORE_marker [] (msg_text (NOTIFICATION Template))
  | KReminder => msg_text (REMINDER Template)
  end ++ frag_text (UNSUBSCRIBE Template).

Definition html_template (k : kind) : str :=
  match k with
  | KAlert => msg_html (ALERT Template)
  | KScored =>
      replace SCORE_marker (frag_html (SCORE Template))
        (msg_html (NOTIFICATION Template))
  | KPlain => replace SCORE_marker [] (msg_html (NOTIFICATION Template))
  | KReminder => msg_html (REMINDER Template)
  end ++ frag_html (UNSUBSCRIBE Template).

(** The value tuples [compose] hands to [%]. *)
Definition text_values (c : call) : list value :=
  match c with
  | Alert u n => [VStr n; VStr u]
  | Notification u n ls _ ts tr =>
      if (ls >? 0)%Z
      then [VStr n; VStr u; VInt ts; VInt tr; VStr u; VStr u]
      else [VStr n; VStr u; VStr u]
  | Reminder u n => [VStr n; VStr u; VStr u]
  end.

Definition html_values (c : call) : list value :=
  match c with
  | Alert u n => [VStr n; VStr u]
  | Notification u n ls _ ts tr =>
      if (ls >? 0)%Z
      then [VStr n; VStr u; VStr u; VInt ts; VInt tr; VStr u; VStr u]
      else [VStr n; VStr u; VStr u; VStr u]
  | Reminder u n => [VStr n; VStr u; VStr u; VStr u]
  end.

(** The message dictionary a call selects, in any store. *)
Definition selected (c : call) (w : Templates) : Message :=
  match c with
  | Alert _ _ => ALERT w
  | Notification _ _ _ _ _ _ => NOTIFICATION w
  | Reminder _ _ => REMINDER w
  end.

Definition user_name_of (c : call) : str :=
  match c with
  | Alert _ n | Notification _ n _ _ _ _ | Reminder _ n => n
  end.

(** The characters of a printed [int]: the minus sign and the digits. *)
Definition is_sign_or_digit (x : char) : bool :=
  ((x =? 45) || (48 <=? x) && (x <=? 57))%N.

(** The markers a template is written with. *)
Definition markers : list str := [lit "%s"; lit "%d"; SCORE_marker].

(** The fixed phrase that opens the score section. *)
Definition score_phrase : str := lit "Your overall score is".

(** *** Whitespace and what is not whitespace *)

(** Every character is whitespace ([s.strip() == '']). *)
Definition blank (s : str) : bool := forallb is_space s.

(** The characters that are not whitespace, in their order. *)
Definition visible (s : str) : str := filter (fun c => negb (is_space c)) s.

(** The number of conversions among the pieces. *)
Fixpoint holes (ps : list piece) : nat :=
  match ps with
  | [] => 0
  | Lit _ :: ps' => holes ps'
  | Hole _ :: ps' => S (holes ps')
  end.

(** *** What the place of a conversion asks of its value *)











End Shape.

Import Py EpicastEmails Shape.

(* ================================================================== *)
(** ** Characters and whitespace *)

Lemma char_eqb_eq (a b : char) : char_eqb a b = true <-> a = b.
Proof. apply N.eqb_eq. Qed.

Lemma char_eqb_refl (a : char) : char_eqb a a = true.
Proof. apply N.eqb_refl. Qed.

Lemma char_eqb_neq (a b : char) : char_eqb a b = false <-> a <> b.
Proof. apply N.eqb_neq. Qed.

Lemma is_space_CR : is_space CR = true.
Proof. reflexivity. Qed.

Lemma is_space_LF : is_space LF = true.
Proof. reflexivity. Qed.

(* ================================================================== *)
(** ** [lstrip], [rstrip] and [strip] *)

Lemma lstrip_length (s : str) : length (lstrip s) <= length s.
Proof.
  induction s as [|c s IH]; simpl; [lia|].
  destruct (is_space c); simpl; lia.
Qed.

Lemma lstrip_fixed (s : str) :
  lstrip s = s <-> s = [] \/ exists c s', s = c :: s' /\ is_space c = false.
Proof.
  split.
  - destruct s as [|c s]; [now left|]. simpl.
    destruct (is_space c) eqn:E; intros H.
    + pose proof (lstrip_length s) as L. rewrite H in L. simpl in L. lia.
    + right. now exists c, s.
  - intros [-> | (c & s' & -> & E)]; simpl; [reflexivity|]. now rewrite E.
Qed.

Lemma lstrip_idem (s : str) : lstrip (lstrip s) = lstrip s.
Proof.
  induction s as [|c s IH]; simpl; [reflexivity|].
  destruct (is_space c) eqn:E; [exact IH|]. simpl. now rewrite E.
Qed.

Lemma lstrip_app (a b : str) :
  lstrip (a ++ b) = if is_empty (lstrip a) then lstrip b else lstrip a ++ b.
Proof.
  induction a as [|c a IH]; simpl; [reflexivity|].
  destruct (is_space c); [exact IH | reflexivity].
Qed.

Lemma lstrip_In (x : char) (s : str) : In x (lstrip s) -> In x s.
Proof.
  induction s as [|c s IH]; simpl; [tauto|].
  destruct (is_space c); simpl; tauto.
Qed.

Lemma is_empty_rev (s : str) : is_empty (rev s) = is_empty s.
Proof.
  destruct s as [|c s]; [reflexivity|]. simpl.
  destruct (rev s); reflexivity.
Qed.

Lemma is_empty_true (s : str) : is_empty s = true <-> s = [].
Proof. destruct s; simpl; split; congruence. Qed.

Lemma rstrip_app (a b : str) :
  rstrip (a ++ b) = if is_empty (rstrip b) then rstrip a else a ++ rstrip b.
Proof.
  unfold rstrip. rewrite rev_app_distr, lstrip_app, is_empty_rev.
  destruct (is_empty (lstrip (rev b))); [reflexivity|].
  now rewrite rev_app_distr, rev_involutive.
Qed.

Lemma rstrip_single (c : char) : rstrip [c] = if is_space c then [] else [c].
Proof. unfold rstrip. simpl. destruct (is_space c); reflexivity. Qed.

Lemma rstrip_cons (c : char) (s : str) :
  rstrip (c :: s) =
  if is_empty (rstrip s) then (if is_space c then [] else [c])
  else c :: rstrip s.
Proof.
  change (c :: s) with ([c] ++ s). rewrite rstrip_app, rstrip_single.
  reflexivity.
Qed.

Lemma rstrip_idem (s : str) : rstrip (rstrip s) = rstrip s.
Proof. unfold rstrip. now rewrite rev_involutive, lstrip_idem. Qed.

Lemma rstrip_In (x : char) (s : str) : In x (rstrip s) -> In x s.
Proof.
  unfold rstrip. intros H. apply in_rev in H. apply lstrip_In in H.
  now apply in_rev.
Qed.

Lemma strip_In (x : char) (s : str) : In x (strip s) -> In x s.
Proof. intros H. now apply lstrip_In, rstrip_In. Qed.

Lemma rstrip_keeps_head (c : char) (s : str) :
  is_space c = false -> exists r, rstrip (c :: s) = c :: r.
Proof.
  intros E. rewrite rstrip_cons, E.
  destruct (is_empty (rstrip s)); eauto.
Qed.

(** [strip] leaves neither leading nor trailing whitespace. *)
Lemma strip_no_outer_space (s : str) : no_outer_space (strip s).
Proof.
  unfold no_outer_space, strip. split; [|apply rstrip_idem].
  pose proof (lstrip_idem s) as H. apply lstrip_fixed in H.
  apply lstrip_fixed.
  destruct H as [-> | (c & s' & -> & E)]; [now left|].
  destruct (rstrip_keeps_head c s' E) as [r ->]. right. now exists c, r.
Qed.

Lemma strip_fixed (s : str) : no_outer_space s -> strip s = s.
Proof. intros [L R]. unfold strip. now rewrite L, R. Qed.

Lemma strip_idem (s : str) : strip (strip s) = strip s.
Proof. apply strip_fixed, strip_no_outer_space. Qed.

Lemma no_outer_space_nil : no_outer_space [].
Proof. split; reflexivity. Qed.

(** A stripped string followed by one whitespace character strips back
    to itself: the CR that [split] leaves at the end of a line. *)
Lemma strip_snoc_space (l : str) (c : char) :
  no_outer_space l -> is_space c = true -> strip (l ++ [c]) = l.
Proof.
  intros [L R] E. unfold strip.
  rewrite lstrip_app, L. destruct l as [|x l]; simpl.
  - now rewrite E.
  - change (x :: l ++ [c]) with ((x :: l) ++ [c]).
    rewrite rstrip_app, rstrip_single, E. simpl. exact R.
Qed.

(* ================================================================== *)
(** ** [split] and [join] *)

Lemma split_not_nil (sep : char) (s : str) : split sep s <> [].
Proof.
  induction s as [|c s IH]; simpl; [discriminate|].
  destruct (char_eqb c sep); [discriminate|].
  destruct (split sep s); [contradiction | discriminate].
Qed.

Lemma split_no_sep (sep : char) (s : str) :
  Forall (fun l => ~ In sep l) (split sep s).
Proof.
  induction s as [|c s IH]; simpl.
  - constructor; [simpl; tauto | constructor].
  - destruct (char_eqb c sep) eqn:E.
    + constructor; [simpl; tauto | exact IH].
    + apply char_eqb_neq in E.
      destruct (split sep s) as [|l ls].
      * constructor; [|constructor]. simpl. intros [H | H]; [congruence | tauto].
      * inversion IH; subst. constructor; [|assumption].
        simpl. intros [H | H]; [congruence | tauto].
Qed.

Lemma split_free (sep : char) (a : str) : ~ In sep a -> split sep a = [a].
Proof.
  induction a as [|c a IH]; simpl; [reflexivity|]. intros H.
  destruct (char_eqb c sep) eqn:E.
  - apply char_eqb_eq in E. tauto.
  - rewrite IH by tauto. reflexivity.
Qed.

Lemma split_app_sep (sep : char) (a b : str) :
  ~ In sep a -> split sep (a ++ sep :: b) = a :: split sep b.
Proof.
  induction a as [|c a IH]; simpl; intros H.
  - now rewrite char_eqb_refl.
  - destruct (char_eqb c sep) eqn:E.
    + apply char_eqb_eq in E. tauto.
    + rewrite IH by tauto. reflexivity.
Qed.

Lemma join_cons (sep l : str) (ls : list str) :
  ls <> [] -> join sep (l :: ls) = l ++ sep ++ join sep ls.
Proof. destruct ls; [congruence | reflexivity]. Qed.

Lemma trim_l_Forall (P : str -> Prop) (ls : list str) :
  Forall P ls -> Forall P (trim_l ls).
Proof.
  induction 1 as [|l ls Hl Hls IH]; simpl; [constructor|].
  destruct (is_empty l); [exact IH | now constructor].
Qed.

Lemma trim_r_Forall (P : str -> Prop) (ls : list str) :
  Forall P ls -> Forall P (trim_r ls).
Proof.
  induction 1 as [|l ls Hl Hls IH]; simpl; [constructor|].
  destruct (trim_r ls) as [|r rs].
  - destruct (is_empty l); repeat constructor; assumption.
  - now constructor.
Qed.

Lemma join_trim_r_empty (sep : str) (ls : list str) :
  sep <> [] ->
  is_empty (join sep (trim_r ls)) =
  match trim_r ls with [] => true | _ :: _ => false end.
Proof.
  intros Hsep. induction ls as [|l ls IH]; simpl; [reflexivity|].
  destruct (trim_r ls) as [|r rs].
  - destruct l; reflexivity.
  - rewrite join_cons by discriminate.
    destruct l; [|reflexivity]. destruct sep; [congruence | reflexivity].
Qed.

(** Leading whitespace of the joined lines: the blank lines in front. *)
Lemma lstrip_join (ls : list str) :
  Forall (fun l => lstrip l = l) ls ->
  lstrip (join CRLF ls) = join CRLF (trim_l ls).
Proof.
  induction 1 as [|l ls Hl Hls IH]; [reflexivity|].
  destruct ls as [|l2 ls'].
  - destruct l; [reflexivity | exact Hl].
  - rewrite join_cons by discriminate.
    destruct l as [|c l]; [exact IH|].
    apply lstrip_fixed in Hl. destruct Hl as [Hl | (c' & s' & Hl & E)];
      [discriminate|]. injection Hl as <- <-.
    simpl trim_l. rewrite (join_cons CRLF (c :: l)) by discriminate.
    simpl. now rewrite E.
Qed.

(** Trailing whitespace of the joined lines: the blank lines at the end. *)
Lemma rstrip_join (ls : list str) :
  Forall (fun l => rstrip l = l) ls ->
  rstrip (join CRLF ls) = join CRLF (trim_r ls).
Proof.
  induction 1 as [|l ls Hl Hls IH]; [reflexivity|].
  destruct ls as [|l2 ls'].
  - simpl. destruct l; [reflexivity | exact Hl].
  - rewrite join_cons by discriminate.
    rewrite rstrip_app, (rstrip_app CRLF), IH.
    rewrite join_trim_r_empty by discriminate.
    change (trim_r (l :: l2 :: ls')) with
      (match trim_r (l2 :: ls') with
       | [] => if is_empty l then [] else [l]
       | r :: rs => l :: r :: rs
       end).
    destruct (trim_r (l2 :: ls')) as [|r rs] eqn:T.
    + simpl. rewrite Hl. destruct l; reflexivity.
    + simpl is_empty. cbv iota. reflexivity.
Qed.

(** Splitting joined lines at the line feeds and stripping every piece
    gives the lines back. *)
Lemma lines_roundtrip (ls : list str) :
  ls <> [] -> Forall clean_line ls ->
  map strip (split LF (join CRLF ls)) = ls.
Proof.
  intros Hne H. induction H as [|l ls [Hs Hf] Hls IH]; [congruence|].
  destruct ls as [|l2 ls'].
  - simpl. rewrite split_free by assumption. simpl.
    now rewrite strip_fixed.
  - rewrite join_cons by discriminate.
    change (l ++ CRLF ++ join CRLF (l2 :: ls')) with
      (l ++ [CR] ++ LF :: join CRLF (l2 :: ls')).
    rewrite app_assoc, split_app_sep.
    + simpl map. rewrite strip_snoc_space by (assumption || reflexivity).
      f_equal. apply IH. discriminate.
    + intros HIn. apply in_app_or in HIn. destruct HIn as [HIn | [HIn | []]];
        [tauto | discriminate].
Qed.

(* ================================================================== *)
(** ** [prepare] *)

(** What [prepare] returns: the stripped lines of the text, without the
    blank ones at either end, joined with CRLF. *)
Lemma prepare_trimmed (s : str) :
  prepare s = join CRLF (trim_r (trim_l (map strip (split LF s)))).
Proof.
  unfold prepare, strip at 1.
  assert (H : Forall no_outer_space (map strip (split LF s))).
  { apply Forall_map, Forall_forall. intros l _. apply strip_no_outer_space. }
  rewrite lstrip_join by (eapply Forall_impl; [|exact H]; now intros l [L _]).
  apply rstrip_join, trim_l_Forall.
  eapply Forall_impl; [|exact H]. now intros l [_ R].
Qed.

Lemma prepare_lines (s : str) :
  exists ls, prepare s = join CRLF ls /\ Forall clean_line ls.
Proof.
  exists (trim_r (trim_l (map strip (split LF s)))).
  split; [apply prepare_trimmed|].
  apply trim_r_Forall, trim_l_Forall, Forall_map.
  eapply Forall_impl; [|apply (split_no_sep LF s)].
  intros l Hl. split; [apply strip_no_outer_space|].
  intros HIn. apply Hl. now apply strip_In.
Qed.

Lemma prepare_no_outer_space (s : str) : no_outer_space (prepare s).
Proof. apply strip_no_outer_space. Qed.

(** Every string [prepare] returns is line-normalized. *)
Lemma prepare_line_normalized (s : str) : line_normalized (prepare s).
Proof. split; [apply prepare_no_outer_space | apply prepare_lines]. Qed.

(** C9: [prepare] is idempotent: for every string [s],
    [prepare (prepare s) = prepare s]. *)
Theorem prepare_idempotent (s : str) : prepare (prepare s) = prepare s.
Proof.
  destruct (prepare_lines s) as (ls & E & H).
  destruct ls as [|l ls].
  - rewrite E. reflexivity.
  - unfold prepare at 1. rewrite E at 1.
    rewrite lines_roundtrip by (assumption || discriminate).
    rewrite <- E. apply strip_fixed, prepare_no_outer_space.
Qed.

(* ================================================================== *)
(** ** The [%] operator, piece by piece *)

Lemma fill_push (c : char) (ps : list piece) (args : list value) :
  fill (push c ps) args =
  match fill ps args with
  | Ok out => Ok (c :: out)
  | Raise e => Raise e
  end.
Proof.
  destruct ps as [|[s|k] ps]; cbn [push fill]; try reflexivity.
  destruct (fill ps args); reflexivity.
Qed.

Lemma format_parse_bounded (n : nat) :
  forall fmt, length fmt <= n ->
  forall ps args, parse fmt = Some ps -> format fmt args = fill ps args.
Proof.
  induction n as [|n IH]; intros fmt Hlen ps args Hp.
  - destruct fmt; [|simpl in Hlen; lia].
    injection Hp as <-. reflexivity.
  - destruct fmt as [|c rest]; [injection Hp as <-; reflexivity|].
    cbn [parse] in Hp. cbn [format].
    destruct (char_eqb c percent).
    + destruct rest as [|k rest']; [discriminate|].
      assert (Hr : length rest' <= n) by (simpl in Hlen; lia).
      destruct (char_eqb k percent);
        [|destruct (char_eqb k conv_s); [|destruct (char_eqb k conv_d)]];
        try discriminate;
        destruct (parse rest') as [ps'|] eqn:E; try discriminate;
        injection Hp as <-.
      * rewrite fill_push, (IH rest' Hr ps' args E). reflexivity.
      * destruct args as [|a args']; [reflexivity|]. cbn [fill].
        rewrite (IH rest' Hr ps' args' E). destruct a; reflexivity.
      * destruct args as [|[s|z] args']; try reflexivity. cbn [fill].
        rewrite (IH rest' Hr ps' args' E). reflexivity.
    + destruct (parse rest) as [ps'|] eqn:E; [|discriminate].
      injection Hp as <-.
      rewrite fill_push, (IH rest (le_S_n _ _ Hlen) ps' args E). reflexivity.
Qed.

(** Formatting a string of the fragment is filling its pieces. *)
Lemma format_parse (fmt : str) (ps : list piece) (args : list value) :
  parse fmt = Some ps -> format fmt args = fill ps args.
Proof. apply (format_parse_bounded (length fmt)). lia. Qed.

Lemma fill_accepts (ps : list piece) :
  forall args, accepts ps args = true -> exists out, fill ps args = Ok out.
Proof.
  induction ps as [|[s|k] ps IH]; intros args H; cbn [accepts fill] in *.
  - destruct args; [eauto | discriminate].
  - destruct (IH args H) as [out ->]. eauto.
  - destruct args as [|a args]; [discriminate|].
    destruct k, a; try discriminate;
      destruct (IH args H) as [out ->]; eauto.
Qed.

(** Enough arguments of the right types: the formatting succeeds. *)
Lemma format_accepted (fmt : str) (args : list value) :
  accepted fmt args = true -> exists out, format fmt args = Ok out.
Proof.
  unfold accepted. destruct (parse fmt) as [ps|] eqn:E; [|discriminate].
  intros H. rewrite (format_parse fmt ps args E). now apply fill_accepts.
Qed.

(* ================================================================== *)
(** ** The methods, in any store *)

(** [compose] formats the two bodies and leaves the store as it was. *)
Lemma compose_spec (w : Templates) (user_id subject tt ht : str)
    (tv hv : list value) :
  compose user_id subject tt ht tv hv w =
  (match format (prepare (tt ++ frag_text (UNSUBSCRIBE w)))
           (tv ++ [VStr user_id]) with
   | Ok t =>
       match format (prepare (ht ++ frag_html (UNSUBSCRIBE w)))
               (hv ++ [VStr user_id]) with
       | Ok h => Ok (SUBJECT_TAG w ++ lit " " ++ subject, t, h)
       | Raise e => Raise e
       end
   | Raise e => Raise e
   end, w).
Proof.
  unfold compose, bind, attr, lift, ret.
  destruct (format _ (tv ++ _)); [|reflexivity].
  destruct (format _ (hv ++ _)); reflexivity.
Qed.

Lemma compose_store (w : Templates) (user_id subject tt ht : str)
    (tv hv : list value) :
  snd (compose user_id subject tt ht tv hv w) = w.
Proof. now rewrite compose_spec. Qed.

Lemma compose_subject (w : Templates) (user_id subject tt ht : str)
    (tv hv : list value) (s t h : str) :
  fst (compose user_id subject tt ht tv hv w) = Ok (s, t, h) ->
  s = SUBJECT_TAG w ++ lit " " ++ subject.
Proof.
  rewrite compose_spec. cbn [fst].
  destruct (format _ (tv ++ _)); [|discriminate].
  destruct (format _ (hv ++ _)); [|discriminate].
  now intros [= <- _ _].
Qed.

(** Every call is one call of [compose]. *)
Lemma exec_compose (c : call) (w : Templates) :
  exists subject tt ht tv hv,
    subject = msg_subject (selected c w) /\
    exec c w = compose (user_of c) subject tt ht tv hv w.
Proof.
  destruct c as [u n | u n ls lr ts tr | u n]; cbn [exec selected user_of].
  - unfold get_alert, bind, attr. do 5 eexists. split; reflexivity.
  - unfold get_notification, bind, attr.
    destruct (ls >? 0)%Z; do 5 eexists; split; reflexivity.
  - unfold get_reminder, bind, attr. do 5 eexists. split; reflexivity.
Qed.

(** A call on the loaded module, as two formattings. *)
Lemma run_eq (c : call) :
  run c =
  match format (prepare (text_template (kind_of c))) (text_values c) with
  | Ok t =>
      match format (prepare (html_template (kind_of c))) (html_values c) with
      | Ok h =>
          Ok (SUBJECT_TAG Template ++ lit " " ++
              msg_subject (selected c Template), t, h)
      | Raise e => Raise e
      end
  | Raise e => Raise e
  end.
Proof.
  unfold run.
  destruct c as [u n | u n ls lr ts tr | u n]; cbn [exec kind_of].
  - unfold get_alert, bind, attr. rewrite compose_spec. reflexivity.
  - unfold get_notification, bind, attr. cbn [text_values html_values].
    destruct (ls >? 0)%Z; rewrite compose_spec; reflexivity.
  - unfold get_reminder, bind, attr. rewrite compose_spec. reflexivity.
Qed.

(** The templates take exactly the values each call supplies. *)
Lemma templates_accept (c : call) :
  accepted (prepare (text_template (kind_of c))) (text_values c) = true /\
  accepted (prepare (html_template (kind_of c))) (html_values c) = true.
Proof.
  destruct c as [u n | u n ls lr ts tr | u n]; cbn [kind_of text_values html_values];
    try destruct (ls >? 0)%Z; split; vm_compute; reflexivity.
Qed.

(** No call raises: each returns a subject and two bodies. *)
Lemma run_ok (c : call) :
  exists t h,
    format (prepare (text_template (kind_of c))) (text_values c) = Ok t /\
    format (prepare (html_template (kind_of c))) (html_values c) = Ok h /\
    run c = Ok (SUBJECT_TAG Template ++ lit " " ++
                msg_subject (selected c Template), t, h).
Proof.
  destruct (templates_accept c) as [Ht Hh].
  destruct (format_accepted _ _ Ht) as [t Et].
  destruct (format_accepted _ _ Hh) as [h Eh].
  exists t, h. rewrite run_eq, Et, Eh. auto.
Qed.

(** Formatting is sequential: a format that takes exactly [a1] can be
    followed by another one, which then takes the arguments left. *)
Lemma format_app_bounded (n : nat) :
  forall f1, length f1 <= n ->
  forall a1 o1 f2 a2, format f1 a1 = Ok o1 ->
  format (f1 ++ f2) (a1 ++ a2) =
  match format f2 a2 with
  | Ok o2 => Ok (o1 ++ o2)
  | Raise e => Raise e
  end.
Proof.
  induction n as [|n IH]; intros f1 Hlen a1 o1 f2 a2 H.
  - destruct f1; [|simpl in Hlen; lia].
    destruct a1; [|discriminate]. injection H as <-. simpl.
    destruct (format f2 a2); reflexivity.
  - destruct f1 as [|c rest].
    { destruct a1; [|discriminate]. injection H as <-. simpl.
      destruct (format f2 a2); reflexivity. }
    cbn [format] in H. cbn [app format].
    destruct (char_eqb c percent).
    + destruct rest as [|k rest']; [discriminate|].
      assert (Hr : length rest' <= n) by (simpl in Hlen; lia).
      cbn [app].
      destruct (char_eqb k percent);
        [|destruct (char_eqb k conv_s); [|destruct (char_eqb k conv_d)]];
        try discriminate.
      * destruct (format rest' a1) as [out|] eqn:E; [|discriminate].
        injection H as <-. rewrite (IH rest' Hr a1 out f2 a2 E).
        destruct (format f2 a2); reflexivity.
      * destruct a1 as [|a a1']; [discriminate|]. cbn [app].
        destruct (format rest' a1') as [out|] eqn:E; [|discriminate].
        injection H as <-. rewrite (IH rest' Hr a1' out f2 a2 E).
        destruct (format f2 a2); [|reflexivity]. now rewrite app_assoc.
      * destruct a1 as [|[s|z] a1']; try discriminate. cbn [app].
        destruct (format rest' a1') as [out|] eqn:E; [|discriminate].
        injection H as <-. rewrite (IH rest' Hr a1' out f2 a2 E).
        destruct (format f2 a2); [|reflexivity]. now rewrite app_assoc.
    + destruct (format rest a1) as [out|] eqn:E; [|discriminate].
      injection H as <-.
      rewrite (IH rest (le_S_n _ _ Hlen) a1 out f2 a2 E).
      destruct (format f2 a2); reflexivity.
Qed.

Lemma format_app (f1 f2 : str) (a1 a2 : list value) (o1 o2 : str) :
  format f1 a1 = Ok o1 -> format f2 a2 = Ok o2 ->
  format (f1 ++ f2) (a1 ++ a2) = Ok (o1 ++ o2).
Proof.
  intros H1 H2.
  rewrite (format_app_bounded (length f1) f1 (le_n _) a1 o1 f2 a2 H1).
  now rewrite H2.
Qed.

(* ================================================================== *)
(** ** Occurrences *)

Lemma startswith_prefix (m s : str) :
  startswith m s = true <-> exists post, s = m ++ post.
Proof.
  revert s. induction m as [|a m IH]; intros s; simpl.
  - split; [intros _; now exists s | reflexivity].
  - destruct s as [|b s].
    + split; [discriminate | intros [post H]; discriminate].
    + rewrite andb_true_iff, char_eqb_eq, IH. split.
      * intros [-> [post ->]]. now exists post.
      * intros [post [= -> ->]]. eauto.
Qed.

Lemma contains_occurs (m s : str) : contains m s = true <-> occurs m s.
Proof.
  unfold occurs. induction s as [|b s IH]; cbn [contains].
  - rewrite orb_false_r, startswith_prefix. split.
    + intros [post H]. now exists [], post.
    + intros (pre & post & H). destruct pre; [now exists post|discriminate].
  - rewrite orb_true_iff, startswith_prefix, IH. split.
    + intros [[post H] | (pre & post & ->)].
      * now exists [], post.
      * now exists (b :: pre), post.
    + intros (pre & post & H). destruct pre as [|x pre].
      * left. now exists post.
      * right. injection H as -> ->. now exists pre, post.
Qed.

Lemma occurs_app_r (m a s : str) : occurs m s -> occurs m (a ++ s).
Proof.
  intros (pre & post & ->). exists (a ++ pre), post. now rewrite app_assoc.
Qed.

Lemma occurs_app_l (m s b : str) : occurs m s -> occurs m (s ++ b).
Proof.
  intros (pre & post & ->). exists pre, (post ++ b).
  now rewrite <- !app_assoc.
Qed.

Lemma occurs_here (m b : str) : occurs m (m ++ b).
Proof. now exists [], b. Qed.

Lemma occurs_trans (a b c : str) : occurs a b -> occurs b c -> occurs a c.
Proof.
  intros (p1 & q1 & ->) (p2 & q2 & ->).
  exists (p2 ++ p1), (q1 ++ q2). now rewrite <- !app_assoc.
Qed.

(** Every value handed to a format that takes it shows in the output. *)
Lemma fill_occurs (ps : list piece) :
  forall args out a,
  fill ps args = Ok out -> In a args -> occurs (render a) out.
Proof.
  induction ps as [|[s|k] ps IH]; intros args out a H HIn; cbn [fill] in H.
  - destruct args; [contradiction | discriminate].
  - destruct (fill ps args) as [out'|] eqn:E; [|discriminate].
    injection H as <-. apply occurs_app_r. eauto.
  - destruct args as [|a0 args]; [discriminate|].
    assert (H' : match fill ps args with
                 | Ok out' => Ok (render a0 ++ out')
                 | Raise e => Raise e
                 end = Ok out) by (destruct k, a0; congruence || exact H).
    destruct (fill ps args) as [out'|] eqn:E; [|discriminate].
    injection H' as <-. destruct HIn as [-> | HIn].
    + apply occurs_here.
    + apply occurs_app_r. eauto.
Qed.

Lemma format_occurs (fmt : str) (args : list value) (out : str) (a : value) :
  accepted fmt args = true ->
  format fmt args = Ok out -> In a args -> occurs (render a) out.
Proof.
  unfold accepted. destruct (parse fmt) as [ps|] eqn:E; [|discriminate].
  intros _. rewrite (format_parse fmt ps args E). apply fill_occurs.
Qed.

(** A match that begins inside [w] and runs past its end carries on in
    what follows. *)
Lemma startswith_app_split (m : str) :
  forall w rest, startswith m (w ++ rest) = true ->
  startswith m w = true \/
  exists q, q <> [] /\ m = w ++ q /\ startswith q rest = true.
Proof.
  induction m as [|a m IH]; intros w rest H; [now left|].
  destruct w as [|b w].
  - right. exists (a :: m). repeat split; [discriminate | exact H].
  - cbn [app startswith] in *. apply andb_true_iff in H. destruct H as [Hab H].
    destruct (IH w rest H) as [Hw | (q & Hq & -> & Hs)].
    + left. now rewrite Hab.
    + right. exists q. apply char_eqb_eq in Hab. subst. auto.
Qed.

Lemma contains_cons_false (m : str) (x : char) (s : str) :
  contains m (x :: s) = false <->
  startswith m (x :: s) = false /\ contains m s = false.
Proof. cbn [contains]. apply orb_false_iff. Qed.

(** A literal without the first character of [m] starts no match. *)
Lemma contains_app_lit (c : char) (m' s rest : str) :
  existsb (char_eqb c) s = false ->
  contains (c :: m') rest = false ->
  contains (c :: m') (s ++ rest) = false.
Proof.
  intros Hs Hr. induction s as [|x s IH]; [exact Hr|].
  cbn [existsb] in Hs. apply orb_false_iff in Hs. destruct Hs as [Hx Hs].
  cbn [app]. apply contains_cons_false. split; [|auto].
  cbn [startswith]. now rewrite Hx.
Qed.

(** No match straddles the end of a value that is followed by a
    character foreign to the tail of [m]. *)
Lemma contains_app_value (c : char) (m' v rest : str) :
  contains (c :: m') v = false ->
  contains (c :: m') rest = false ->
  (forall x rest', rest = x :: rest' -> ~ In x m') ->
  contains (c :: m') (v ++ rest) = false.
Proof.
  intros Hv Hr Hx. induction v as [|y v IH]; [exact Hr|].
  apply contains_cons_false in Hv. destruct Hv as [Hy Hv].
  cbn [app]. apply contains_cons_false. split; [|auto].
  destruct (startswith (c :: m') (y :: v ++ rest)) eqn:E; [|reflexivity].
  change (y :: v ++ rest) with ((y :: v) ++ rest) in E.
  apply startswith_app_split in E.
  destruct E as [E | (q & Hq & Hm & Hs)]; [congruence|].
  injection Hm as _ ->. destruct q as [|z q]; [congruence|].
  destruct rest as [|x rest']; [discriminate|].
  cbn [startswith] in Hs. apply andb_true_iff in Hs. destruct Hs as [Hzx _].
  apply char_eqb_eq in Hzx. subst x.
  exfalso. apply (Hx z rest' eq_refl). apply in_or_app. right. now left.
Qed.

Lemma existsb_char_false (x : char) (s : str) :
  existsb (char_eqb x) s = false -> ~ In x s.
Proof.
  intros H HIn. assert (E : existsb (char_eqb x) s = true).
  { apply existsb_exists. exists x. split; [exact HIn | apply char_eqb_refl]. }
  congruence.
Qed.

(** In a safe shape a string can occur in the output only inside a
    value. *)
Lemma fill_safe (c : char) (m' : str) (ps : list piece) :
  forall args out,
  safe_shape c m' ps = true ->
  Forall (fun a => contains (c :: m') (render a) = false) args ->
  fill ps args = Ok out ->
  contains (c :: m') out = false.
Proof.
  induction ps as [|[s|k] ps IH]; intros args out Hs Ha H;
    cbn [fill safe_shape] in *.
  - destruct args; [|discriminate]. injection H as <-. reflexivity.
  - apply andb_true_iff in Hs. destruct Hs as [Hs1 Hs2].
    destruct (fill ps args) as [out'|] eqn:E; [|discriminate].
    injection H as <-. apply contains_app_lit; [|eauto].
    now apply negb_true_iff.
  - apply andb_true_iff in Hs. destruct Hs as [Hs1 Hs2].
    destruct args as [|a0 args]; [discriminate|].
    assert (H' : match fill ps args with
                 | Ok out' => Ok (render a0 ++ out')
                 | Raise e => Raise e
                 end = Ok out) by (destruct k, a0; congruence || exact H).
    destruct (fill ps args) as [out'|] eqn:E; [|discriminate].
    injection H' as <-. inversion Ha as [|? ? Ha0 Ha']; subst.
    apply contains_app_value; [exact Ha0 | eauto |].
    intros x rest' ->.
    destruct ps as [|[[|x0 s0]|k0] ps']; try discriminate; cbn [fill] in E.
    + destruct args; discriminate.
    + destruct (fill ps' args) as [out''|]; [|discriminate].
      injection E as -> _. apply existsb_char_false.
      now apply negb_true_iff.
Qed.

Lemma format_safe (m fmt : str) (args : list value) (out : str) :
  safe_format m fmt = true ->
  Forall (fun a => contains m (render a) = false) args ->
  format fmt args = Ok out ->
  contains m out = false.
Proof.
  unfold safe_format. destruct m as [|c m']; [discriminate|].
  destruct (parse fmt) as [ps|] eqn:E; [|discriminate].
  intros Hs Ha. rewrite (format_parse fmt ps args E). now apply fill_safe.
Qed.

(* ================================================================== *)
(** ** Printed integers *)

Lemma uint_chars (d : Decimal.uint) :
  Forall (fun x => is_sign_or_digit x = true)
    (lit (NilEmpty.string_of_uint d)).
Proof.
  induction d; cbn [NilEmpty.string_of_uint lit list_ascii_of_string map];
    constructor; (reflexivity || assumption).
Qed.

Lemma str_of_int_chars (z : Z) :
  Forall (fun x => is_sign_or_digit x = true) (str_of_int z).
Proof.
  unfold str_of_int. destruct (Z.to_int z) as [d|d]; cbn [NilZero.string_of_int].
  - destruct d; try apply uint_chars. repeat constructor.
  - cbn [lit list_ascii_of_string map]. constructor; [reflexivity|].
    destruct d; try apply uint_chars. repeat constructor.
Qed.

Lemma str_of_int_not_nil (z : Z) : str_of_int z <> [].
Proof.
  unfold str_of_int. destruct (Z.to_int z) as [d|d]; [|discriminate].
  destruct d; discriminate.
Qed.

Lemma contains_foreign_head (c : char) (m' v : str) :
  ~ In c v -> contains (c :: m') v = false.
Proof.
  induction v as [|x v IH]; intros H; [reflexivity|].
  apply contains_cons_false. split.
  - cbn [startswith]. destruct (char_eqb c x) eqn:E; [|reflexivity].
    apply char_eqb_eq in E. subst. exfalso. apply H. now left.
  - apply IH. intros HIn. apply H. now right.
Qed.

(** A string that does not begin with a sign or a digit is in no
    printed integer. *)
Lemma contains_str_of_int (c : char) (m' : str) (z : Z) :
  is_sign_or_digit c = false -> contains (c :: m') (str_of_int z) = false.
Proof.
  intros Hc. apply contains_foreign_head. intros HIn.
  pose proof (str_of_int_chars z) as H. rewrite Forall_forall in H.
  specialize (H c HIn). congruence.
Qed.

Lemma str_eqb_eq (a b : str) : str_eqb a b = true <-> a = b.
Proof.
  revert b. induction a as [|x a IH]; intros [|y b]; cbn [str_eqb];
    try (split; (discriminate || reflexivity)).
  rewrite andb_true_iff, char_eqb_eq, IH. split.
  - now intros [-> ->].
  - now intros [= -> ->].
Qed.

(* ================================================================== *)
(** ** The subject *)

(** C5: for every call of the three operations the returned subject is
    the fixed tag, one space and the subject of the selected template;
    it starts with the tag and exactly one space. *)
Theorem subject_is_tag_space_subject (c : call) :
  exists s t h,
    run c = Ok (s, t, h) /\
    s = SUBJECT_TAG Template ++ lit " " ++ msg_subject (selected c Template) /\
    startswith (SUBJECT_TAG Template ++ lit " ") s = true /\
    startswith (SUBJECT_TAG Template ++ lit "  ") s = false.
Proof.
  destruct (run_ok c) as (t & h & _ & _ & E).
  eexists _, t, h. split; [exact E|]. split; [reflexivity|].
  destruct c; split; vm_compute; reflexivity.
Qed.

(** C10: the returned subject is one constant per operation, whatever
    the arguments: "[Crowdcast] Crowdcast Needs Your Help" for
    [get_alert], "[Crowdcast] New Data Available (Deadline: Monday 10
    AM)" for [get_notification] and "[Crowdcast] Forecasts Needed
    (Deadline: Monday 10AM)" for [get_reminder]. *)
Theorem subject_constant_per_operation (c : call) :
  exists t h,
    run c =
    Ok (match c with
        | Alert _ _ => lit "[Crowdcast] Crowdcast Needs Your Help"
        | Notification _ _ _ _ _ _ =>
            lit "[Crowdcast] New Data Available (Deadline: Monday 10 AM)"
        | Reminder _ _ =>
            lit "[Crowdcast] Forecasts Needed (Deadline: Monday 10AM)"
        end, t, h).
Proof.
  destruct (run_ok c) as (t & h & _ & _ & E).
  exists t, h. rewrite E. destruct c; reflexivity.
Qed.

(* ================================================================== *)
(** ** Independence of calls *)

(** C8: [last_rank] has no effect on what [get_notification] returns:
    any two values of it give the same subject and bodies, in every
    store. *)
Theorem last_rank_is_unused (u n : str) (ls lr1 lr2 ts tr : Z) :
  (forall w, get_notification u n ls lr1 ts tr w =
             get_notification u n ls lr2 ts tr w) /\
  run (Notification u n ls lr1 ts tr) = run (Notification u n ls lr2 ts tr).
Proof. split; reflexivity. Qed.

Lemma exec_store (c : call) (w : Templates) : snd (exec c w) = w.
Proof.
  destruct (exec_compose c w) as (subject & tt & ht & tv & hv & _ & ->).
  apply compose_store.
Qed.

(** C7: the three operations are deterministic and touch no state: a
    call leaves the store of templates as it found it, so a second call
    with the same arguments returns the same subject and bodies. *)
Theorem calls_are_deterministic (c : call) (w : Templates) :
  let first := exec c w in
  let second := exec c (snd first) in
  snd first = w /\ snd second = w /\ fst second = fst first.
Proof.
  cbv zeta. rewrite !exec_store. auto.
Qed.

(* ================================================================== *)
(** ** The unsubscribe footer *)

Lemma footer_rendered (fmt foot : str) (args : list value) (a : value)
    (t : str) :
  format fmt (args ++ [a]) = Ok t ->
  (let n := length fmt - length foot in
   str_eqb fmt (firstn n fmt ++ foot)
   && accepted (firstn n fmt) args && accepted foot [a]) = true ->
  exists ft, format foot [a] = Ok ft /\ endswith ft t /\ occurs (render a) ft.
Proof.
  cbv zeta. intros Ht H.
  apply andb_true_iff in H. destruct H as [H Hf].
  apply andb_true_iff in H. destruct H as [Heq Hm].
  apply str_eqb_eq in Heq.
  destruct (format_accepted _ _ Hm) as [main Em].
  destruct (format_accepted _ _ Hf) as [ft Ef].
  exists ft. split; [exact Ef|]. split.
  - exists main. rewrite Heq in Ht.
    rewrite (format_app _ _ _ _ _ _ Em Ef) in Ht. congruence.
  - apply (format_occurs foot [a] ft a Hf Ef). now left.
Qed.

(** C4: for every call the text body ends with the rendered text
    unsubscribe fragment and the html body with the rendered html one,
    each holding the [user_id] of the call, which is the last value of
    both value sequences. *)
Theorem bodies_end_with_unsubscribe (c : call) :
  exists s t h ft fh,
    run c = Ok (s, t, h) /\
    format (prepare (frag_text (UNSUBSCRIBE Template))) [VStr (user_of c)]
      = Ok ft /\
    format (prepare (frag_html (UNSUBSCRIBE Template))) [VStr (user_of c)]
      = Ok fh /\
    endswith ft t /\ endswith fh h /\
    occurs (user_of c) ft /\ occurs (user_of c) fh /\
    last (text_values c) (VInt 0) = VStr (user_of c) /\
    last (html_values c) (VInt 0) = VStr (user_of c).
Proof.
  destruct (run_ok c) as (t & h & Et & Eh & E).
  assert (Ht : exists ft,
             format (prepare (frag_text (UNSUBSCRIBE Template)))
               [VStr (user_of c)] = Ok ft /\
             endswith ft t /\ occurs (user_of c) ft).
  { destruct c as [u n | u n ls lr ts tr | u n];
      cbn [kind_of text_values user_of] in *;
      try destruct (ls >? 0)%Z;
      (match type of Et with
       | format ?f ?v = _ =>
           apply (footer_rendered f _ (removelast v) (VStr u) _ Et)
       end; vm_compute; reflexivity). }
  assert (Hh : exists fh,
             format (prepare (frag_html (UNSUBSCRIBE Template)))
               [VStr (user_of c)] = Ok fh /\
             endswith fh h /\ occurs (user_of c) fh).
  { destruct c as [u n | u n ls lr ts tr | u n];
      cbn [kind_of html_values user_of] in *;
      try destruct (ls >? 0)%Z;
      (match type of Eh with
       | format ?f ?v = _ =>
           apply (footer_rendered f _ (removelast v) (VStr u) _ Eh)
       end; vm_compute; reflexivity). }
  destruct Ht as (ft & Eft & Hft & Oft). destruct Hh as (fh & Efh & Hfh & Ofh).
  eexists _, t, h, ft, fh. repeat (split; [eassumption|]).
  destruct c as [u n | u n ls lr ts tr | u n];
    cbn [text_values html_values user_of];
    try destruct (ls >? 0)%Z; split; reflexivity.
Qed.

Lemma endswith_rev (p s : str) :
  startswith (rev p) (rev s) = true -> endswith p s.
Proof.
  intros H. apply startswith_prefix in H. destruct H as [post H].
  exists (rev post). apply (f_equal (@rev char)) in H.
  now rewrite rev_involutive, rev_app_distr, rev_involutive in H.
Qed.

(* ================================================================== *)
(** ** The reminder *)

Lemma format_sections (f1 sep f2 : str) (a1 a2 : list value) (o1 o2 : str) :
  format f1 a1 = Ok o1 -> format sep [] = Ok sep -> format f2 a2 = Ok o2 ->
  format (f1 ++ sep ++ f2) (a1 ++ a2) = Ok (o1 ++ sep ++ o2).
Proof.
  intros H1 Hs H2. apply format_app; [exact H1|].
  apply (format_app sep f2 [] a2 sep o2 Hs H2).
Qed.

(** C6: [get_reminder] fills the reminder text with (user_name,
    user_id) and the reminder html with (user_name, user_id, user_id),
    the footer taking one more user_id; for ("u123", "Jane") the text
    holds "Jane" and "u123" once each outside the footer, which ends in
    "user=u123", and the html holds "u123" twice outside the footer, in
    the link and as the visible id. *)
Theorem reminder_values_and_example :
  (forall u n : str, exists mt mh ft fh,
     format (prepare (msg_text (REMINDER Template))) [VStr n; VStr u]
       = Ok mt /\
     format (prepare (msg_html (REMINDER Template))) [VStr n; VStr u; VStr u]
       = Ok mh /\
     format (prepare (frag_text (UNSUBSCRIBE Template))) [VStr u] = Ok ft /\
     format (prepare (frag_html (UNSUBSCRIBE Template))) [VStr u] = Ok fh /\
     run (Reminder u n) =
     Ok (lit "[Crowdcast] Forecasts Needed (Deadline: Monday 10AM)",
         mt ++ CRLF ++ CRLF ++ ft, mh ++ CRLF ++ CRLF ++ fh)) /\
  (exists mt mh ft fh,
     format (prepare (msg_text (REMINDER Template)))
       [VStr (lit "Jane"); VStr (lit "u123")] = Ok mt /\
     format (prepare (msg_html (REMINDER Template)))
       [VStr (lit "Jane"); VStr (lit "u123"); VStr (lit "u123")] = Ok mh /\
     format (prepare (frag_text (UNSUBSCRIBE Template))) [VStr (lit "u123")]
       = Ok ft /\
     format (prepare (frag_html (UNSUBSCRIBE Template))) [VStr (lit "u123")]
       = Ok fh /\
     run (Reminder (lit "u123") (lit "Jane")) =
     Ok (lit "[Crowdcast] Forecasts Needed (Deadline: Monday 10AM)",
         mt ++ CRLF ++ CRLF ++ ft, mh ++ CRLF ++ CRLF ++ fh) /\
     count (lit "Jane") mt = 1 /\ count (lit "u123") mt = 1 /\
     endswith (lit "user=u123") ft /\
     count (lit "u123") mh = 2 /\
     contains (lit "launch.php?user=u123" ++ dq) mh = true /\
     contains (lit "User ID: u123") mh = true).
Proof.
  assert (G : forall u n : str, exists mt mh ft fh,
     format (prepare (msg_text (REMINDER Template))) [VStr n; VStr u]
       = Ok mt /\
     format (prepare (msg_html (REMINDER Template))) [VStr n; VStr u; VStr u]
       = Ok mh /\
     format (prepare (frag_text (UNSUBSCRIBE Template))) [VStr u] = Ok ft /\
     format (prepare (frag_html (UNSUBSCRIBE Template))) [VStr u] = Ok fh /\
     run (Reminder u n) =
     Ok (lit "[Crowdcast] Forecasts Needed (Deadline: Monday 10AM)",
         mt ++ CRLF ++ CRLF ++ ft, mh ++ CRLF ++ CRLF ++ fh)).
  { intros u n.
    destruct (format_accepted (prepare (msg_text (REMINDER Template)))
                [VStr n; VStr u]) as [mt Emt]; [vm_compute; reflexivity|].
    destruct (format_accepted (prepare (msg_html (REMINDER Template)))
                [VStr n; VStr u; VStr u]) as [mh Emh];
      [vm_compute; reflexivity|].
    destruct (format_accepted (prepare (frag_text (UNSUBSCRIBE Template)))
                [VStr u]) as [ft Eft]; [vm_compute; reflexivity|].
    destruct (format_accepted (prepare (frag_html (UNSUBSCRIBE Template)))
                [VStr u]) as [fh Efh]; [vm_compute; reflexivity|].
    exists mt, mh, ft, fh. repeat (split; [assumption|]).
    rewrite run_eq. cbn [kind_of text_values html_values selected].
    assert (St : prepare (text_template KReminder) =
                 prepare (msg_text (REMINDER Template)) ++ (CRLF ++ CRLF) ++
                 prepare (frag_text (UNSUBSCRIBE Template)))
      by (vm_compute; reflexivity).
    assert (Sh : prepare (html_template KReminder) =
                 prepare (msg_html (REMINDER Template)) ++ (CRLF ++ CRLF) ++
                 prepare (frag_html (UNSUBSCRIBE Template)))
      by (vm_compute; reflexivity).
    rewrite St, Sh.
    pose proof (format_sections _ (CRLF ++ CRLF) _ [VStr n; VStr u] [VStr u]
                  mt ft Emt eq_refl Eft) as Ft.
    pose proof (format_sections _ (CRLF ++ CRLF) _ [VStr n; VStr u; VStr u]
                  [VStr u] mh fh Emh eq_refl Efh) as Fh.
    cbn [app] in Ft, Fh. cbn [app]. rewrite Ft, Fh. reflexivity. }
  split; [exact G|].
  destruct (G (lit "u123") (lit "Jane")) as (mt & mh & ft & fh & Emt & Emh & Eft & Efh & E).
  exists mt, mh, ft, fh. repeat (split; [assumption|]).
  vm_compute in Emt, Emh, Eft.
  injection Emt as <-. injection Emh as <-. injection Eft as <-.
  repeat split; try (vm_compute; reflexivity).
  apply endswith_rev. vm_compute. reflexivity.
Qed.

(* ================================================================== *)
(** ** The score section of the notification *)

Lemma section_rendered (fmt sec : str) (a1 a2 a3 : list value) (t : str)
    (i : nat) :
  format fmt (a1 ++ a2 ++ a3) = Ok t ->
  (str_eqb fmt (firstn i fmt ++ sec ++ skipn (i + length sec) fmt)
   && accepted (firstn i fmt) a1 && accepted sec a2
   && accepted (skipn (i + length sec) fmt) a3) = true ->
  exists st, format sec a2 = Ok st /\ occurs st t.
Proof.
  intros Ht H.
  apply andb_true_iff in H. destruct H as [H H3].
  apply andb_true_iff in H. destruct H as [H H2].
  apply andb_true_iff in H. destruct H as [Heq H1].
  apply str_eqb_eq in Heq.
  destruct (format_accepted _ _ H1) as [o1 E1].
  destruct (format_accepted _ _ H2) as [st E2].
  destruct (format_accepted _ _ H3) as [o3 E3].
  exists st. split; [exact E2|]. exists o1, o3.
  rewrite Heq in Ht.
  rewrite (format_app _ _ _ _ _ _ E1 (format_app _ _ _ _ _ _ E2 E3)) in Ht.
  congruence.
Qed.

Lemma fill_lit_occurs (ps : list piece) :
  forall args out s,
  fill ps args = Ok out -> In (Lit s) ps -> occurs s out.
Proof.
  induction ps as [|[s0|k] ps IH]; intros args out s H HIn; cbn [fill] in H.
  - contradiction.
  - destruct (fill ps args) as [out'|] eqn:E; [|discriminate].
    injection H as <-. destruct HIn as [[= ->] | HIn].
    + apply occurs_here.
    + apply occurs_app_r. eauto.
  - destruct args as [|a0 args]; [discriminate|].
    assert (H' : match fill ps args with
                 | Ok out' => Ok (render a0 ++ out')
                 | Raise e => Raise e
                 end = Ok out) by (destruct k, a0; congruence || exact H).
    destruct (fill ps args) as [out'|] eqn:E; [|discriminate].
    injection H' as <-. destruct HIn as [HIn | HIn]; [discriminate|].
    apply occurs_app_r. eauto.
Qed.

(** A string found in a literal run of the format is in the output. *)
Lemma format_lit_occurs (fmt : str) (args : list value) (out m : str) :
  match parse fmt with
  | Some ps => existsb (fun p => match p with
                                 | Lit s => contains m s
                                 | Hole _ => false
                                 end) ps
  | None => false
  end = true ->
  format fmt args = Ok out -> occurs m out.
Proof.
  destruct (parse fmt) as [ps|] eqn:E; [|discriminate].
  intros H. rewrite (format_parse fmt ps args E). intros Hf.
  apply existsb_exists in H. destruct H as ([s|k] & HIn & Hm); [|discriminate].
  apply contains_occurs in Hm.
  eapply occurs_trans; [exact Hm|]. eapply fill_lit_occurs; eassumption.
Qed.

(** C1, as amended: [get_notification] branches on [last_score > 0].
    Above zero both bodies are the templates with the score fragment in
    place of the marker, filled with the values followed by
    (total_score, total_rank, user_id): the rendered score section, with
    these three values, is in both bodies.  Otherwise the marker is
    replaced with the empty string and no value is added; the phrase
    "Your overall score is" is then in neither body, unless user_id or
    user_name themselves hold it. *)
Theorem notification_score_section (u n : str) (ls lr ts tr : Z) :
  exists s t h,
    run (Notification u n ls lr ts tr) = Ok (s, t, h) /\
    if (ls >? 0)%Z then
      format
        (prepare (replace SCORE_marker (frag_text (SCORE Template))
                    (msg_text (NOTIFICATION Template))
                  ++ frag_text (UNSUBSCRIBE Template)))
        ([VStr n; VStr u] ++ [VInt ts; VInt tr; VStr u] ++ [VStr u]) = Ok t /\
      format
        (prepare (replace SCORE_marker (frag_html (SCORE Template))
                    (msg_html (NOTIFICATION Template))
                  ++ frag_html (UNSUBSCRIBE Template)))
        ([VStr n; VStr u; VStr u] ++ [VInt ts; VInt tr; VStr u] ++ [VStr u])
        = Ok h /\
      exists st sh,
        format (prepare (frag_text (SCORE Template)))
          [VInt ts; VInt tr; VStr u] = Ok st /\
        format (prepare (frag_html (SCORE Template)))
          [VInt ts; VInt tr; VStr u] = Ok sh /\
        occurs st t /\ occurs sh h /\
        occurs score_phrase st /\ occurs score_phrase sh /\
        Forall (fun v => occurs v st /\ occurs v sh)
          [str_of_int ts; str_of_int tr; u]
    else
      format
        (prepare (replace SCORE_marker [] (msg_text (NOTIFICATION Template))
                  ++ frag_text (UNSUBSCRIBE Template)))
        ([VStr n; VStr u] ++ [VStr u]) = Ok t /\
      format
        (prepare (replace SCORE_marker [] (msg_html (NOTIFICATION Template))
                  ++ frag_html (UNSUBSCRIBE Template)))
        ([VStr n; VStr u; VStr u] ++ [VStr u]) = Ok h /\
      (contains score_phrase u = false -> contains score_phrase n = false ->
       contains score_phrase t = false /\ contains score_phrase h = false).
Proof.
  destruct (run_ok (Notification u n ls lr ts tr)) as (t & h & Et & Eh & E).
  eexists _, t, h. split; [exact E|].
  cbn [kind_of text_values html_values] in Et, Eh.
  destruct (ls >? 0)%Z.
  - split; [exact Et|]. split; [exact Eh|].
    destruct (section_rendered _ (prepare (frag_text (SCORE Template)))
                [VStr n; VStr u] [VInt ts; VInt tr; VStr u] [VStr u] t 441 Et)
      as (st & Est & Ost); [vm_compute; reflexivity|].
    destruct (section_rendered _ (prepare (frag_html (SCORE Template)))
                [VStr n; VStr u; VStr u] [VInt ts; VInt tr; VStr u] [VStr u]
                h 549 Eh)
      as (sh & Esh & Osh); [vm_compute; reflexivity|].
    exists st, sh. repeat (split; [assumption|]).
    split; [eapply format_lit_occurs; [|exact Est]; vm_compute; reflexivity|].
    split; [eapply format_lit_occurs; [|exact Esh]; vm_compute; reflexivity|].
    repeat constructor.
    all: first
      [ eapply (format_occurs _ _ st (VInt ts)); [|exact Est|]
      | eapply (format_occurs _ _ sh (VInt ts)); [|exact Esh|]
      | eapply (format_occurs _ _ st (VInt tr)); [|exact Est|]
      | eapply (format_occurs _ _ sh (VInt tr)); [|exact Esh|]
      | eapply (format_occurs _ _ st (VStr u)); [|exact Est|]
      | eapply (format_occurs _ _ sh (VStr u)); [|exact Esh|] ];
      (vm_compute; reflexivity) || (cbn [In]; tauto).
  - split; [exact Et|]. split; [exact Eh|]. intros Hu Hn.
    split.
    + eapply format_safe; [|  |exact Et]; [vm_compute; reflexivity|].
      repeat constructor; assumption.
    + eapply format_safe; [|  |exact Eh]; [vm_compute; reflexivity|].
      repeat constructor; assumption.
Qed.

(** At (user "u123", name "Jane", last_score 0) the phrase is in
    neither body; at last_score 5, total 100, rank 3 the score section
    is in both. *)
Lemma notification_score_section_witness :
  (exists s t h,
     run (Notification (lit "u123") (lit "Jane") 0 2 100 3) = Ok (s, t, h) /\
     contains score_phrase t = false /\ contains score_phrase h = false) /\
  (exists s t h,
     run (Notification (lit "u123") (lit "Jane") 5 2 100 3) = Ok (s, t, h) /\
     occurs score_phrase t /\ occurs score_phrase h /\
     occurs (lit "100") t /\ occurs (lit "3") h).
Proof.
  split.
  - destruct (notification_score_section (lit "u123") (lit "Jane") 0 2 100 3)
      as (s & t & h & E & H).
    exists s, t, h. split; [exact E|].
    change (0 >? 0)%Z with false in H. cbv iota in H.
    destruct H as (_ & _ & H). apply H; reflexivity.
  - destruct (notification_score_section (lit "u123") (lit "Jane") 5 2 100 3)
      as (s & t & h & E & H).
    exists s, t, h. split; [exact E|].
    change (5 >? 0)%Z with true in H. cbv iota in H.
    destruct H as (_ & _ & st & sh & _ & _ & Ot & Oh & Pt & Ph & V).
    destruct (Forall_inv V) as [V1 _].
    destruct (Forall_inv (Forall_inv_tail V)) as [_ V2].
    repeat split.
    + exact (occurs_trans _ _ _ Pt Ot).
    + exact (occurs_trans _ _ _ Ph Oh).
    + exact (occurs_trans _ _ _ V1 Ot).
    + exact (occurs_trans _ _ _ V2 Oh).
Defined.

(** C1 as stated fails: with the phrase as the user name and last_score
    0, both bodies hold "Your overall score is". *)
Lemma notification_phrase_counterexample :
  exists s t h,
    run (Notification (lit "u123") (lit "Your overall score is") 0 2 100 3)
      = Ok (s, t, h) /\
    contains (lit "Your overall score is") t = true /\
    contains (lit "Your overall score is") h = true.
Proof.
  eexists _, _, _. split; [vm_compute; reflexivity|].
  split; vm_compute; reflexivity.
Qed.

(* ================================================================== *)
(** ** Markers left in the bodies *)

Lemma templates_marker_safe (m : str) (k : kind) :
  In m markers ->
  safe_format m (prepare (text_template k)) = true /\
  safe_format m (prepare (html_template k)) = true.
Proof.
  intros [<- | [<- | [<- | []]]]; destruct k; split; vm_compute; reflexivity.
Qed.

Lemma markers_not_in_int (m : str) (z : Z) :
  In m markers -> contains m (str_of_int z) = false.
Proof.
  intros [<- | [<- | [<- | []]]];
    [ apply (contains_str_of_int 37%N (lit "s"))
    | apply (contains_str_of_int 37%N (lit "d"))
    | apply (contains_str_of_int 123%N (lit "SCORE}")) ]; reflexivity.
Qed.

Lemma values_free_of (m : str) (c : call) :
  (forall z, contains m (str_of_int z) = false) ->
  contains m (user_of c) = false -> contains m (user_name_of c) = false ->
  Forall (fun a => contains m (render a) = false) (text_values c) /\
  Forall (fun a => contains m (render a) = false) (html_values c).
Proof.
  intros Hz Hu Hn.
  destruct c as [u n | u n ls lr ts tr | u n];
    cbn [text_values html_values user_of user_name_of] in *;
    try destruct (ls >? 0)%Z; split; repeat constructor;
    cbn [render]; auto.
Qed.

Lemma values_hold_user (c : call) :
  In (VStr (user_of c)) (text_values c) /\
  In (VStr (user_name_of c)) (text_values c) /\
  In (VStr (user_of c)) (html_values c) /\
  In (VStr (user_name_of c)) (html_values c).
Proof.
  destruct c as [u n | u n ls lr ts tr | u n];
    cbn [text_values html_values user_of user_name_of];
    try destruct (ls >? 0)%Z; cbn [In]; auto 10.
Qed.

(** A body holds a string that one of its values holds. *)
Lemma format_holds_value (m fmt : str) (args : list value) (out : str)
    (a : value) :
  accepted fmt args = true -> format fmt args = Ok out -> In a args ->
  contains m (render a) = true -> contains m out = true.
Proof.
  intros Ha Hf HIn Hm. apply contains_occurs.
  apply contains_occurs in Hm.
  exact (occurs_trans _ _ _ Hm (format_occurs fmt args out a Ha Hf HIn)).
Qed.

(** C2, as amended: for all valid inputs each of the three operations
    returns a subject and two bodies: the values supplied match the
    conversions of each body in number and type, so that the formatting
    cannot fail.  Each body holds a given marker ("%s", "%d" or
    "{SCORE}") exactly when user_id or user_name itself holds that
    marker: the templates leave none behind. *)
Theorem bodies_have_no_marker (c : call) :
  exists s t h,
    run c = Ok (s, t, h) /\
    accepted (prepare (text_template (kind_of c))) (text_values c) = true /\
    accepted (prepare (html_template (kind_of c))) (html_values c) = true /\
    forall m, In m markers ->
      contains m t =
        contains m (user_of c) || contains m (user_name_of c) /\
      contains m h =
        contains m (user_of c) || contains m (user_name_of c).
Proof.
  destruct (run_ok c) as (t & h & Et & Eh & E).
  destruct (templates_accept c) as [At Ah].
  eexists _, t, h. repeat (split; [eassumption|]).
  intros m Hm.
  destruct (values_hold_user c) as (Ut & Nt & Uh & Nh).
  destruct (contains m (user_of c)) eqn:Hu.
  { split.
    - exact (format_holds_value m _ _ t _ At Et Ut Hu).
    - exact (format_holds_value m _ _ h _ Ah Eh Uh Hu). }
  destruct (contains m (user_name_of c)) eqn:Hn.
  { split.
    - exact (format_holds_value m _ _ t _ At Et Nt Hn).
    - exact (format_holds_value m _ _ h _ Ah Eh Nh Hn). }
  destruct (templates_marker_safe m (kind_of c) Hm) as [St Sh].
  destruct (values_free_of m c (fun z => markers_not_in_int m z Hm) Hu Hn)
    as [Vt Vh].
  split.
  - exact (format_safe m _ _ t St Vt Et).
  - exact (format_safe m _ _ h Sh Vh Eh).
Qed.

(** At the alert for (user "u123", name "Jane") no marker is left. *)
Lemma bodies_have_no_marker_witness :
  exists s t h,
    run (Alert (lit "u123") (lit "Jane")) = Ok (s, t, h) /\
    forall m, In m markers -> contains m t = false /\ contains m h = false.
Proof.
  destruct (bodies_have_no_marker (Alert (lit "u123") (lit "Jane")))
    as (s & t & h & E & _ & _ & H).
  exists s, t, h. split; [exact E|].
  intros m Hm. destruct (H m Hm) as [Ht Hh]. rewrite Ht, Hh.
  destruct Hm as [<- | [<- | [<- | []]]]; split; reflexivity.
Defined.

(** C2 as stated fails: with "{SCORE}" as the user name, both bodies of
    the notification hold the marker. *)
Lemma marker_in_name_counterexample :
  exists s t h,
    run (Notification (lit "u123") (lit "{SCORE}") 0 2 100 3) = Ok (s, t, h) /\
    contains (lit "{SCORE}") t = true /\
    contains (lit "{SCORE}") h = true.
Proof.
  eexists _, _, _. split; [vm_compute; reflexivity|].
  split; vm_compute; reflexivity.
Qed.

(* ================================================================== *)
(** ** Line-normalized bodies *)

Lemma rstrip_fixed_rev (s : str) : rstrip s = s <-> lstrip (rev s) = rev s.
Proof.
  unfold rstrip. split; intros H.
  - rewrite <- H at 2. now rewrite rev_involutive.
  - rewrite H. apply rev_involutive.
Qed.

Lemma lstrip_subst (a b v : str) (x : char) :
  lstrip (a ++ x :: b) = a ++ x :: b -> lstrip v = v -> v <> [] ->
  lstrip (a ++ v ++ b) = a ++ v ++ b.
Proof.
  intros Ha Hv Hne. apply lstrip_fixed. right.
  destruct a as [|c a].
  - apply lstrip_fixed in Hv. destruct Hv as [-> | (y & v' & -> & E)];
      [congruence|]. now exists y, (v' ++ b).
  - apply lstrip_fixed in Ha. destruct Ha as [Ha | (c' & s' & Ha & E)];
      [discriminate|]. injection Ha as <- _. now exists c, (a ++ v ++ b).
Qed.

(** A value without outer whitespace in place of a letter keeps the
    string free of outer whitespace. *)
Lemma no_outer_space_subst (a b v : str) (x : char) :
  no_outer_space (a ++ x :: b) -> no_outer_space v -> v <> [] ->
  no_outer_space (a ++ v ++ b).
Proof.
  intros [La Ra] [Lv Rv] Hne. split.
  - now apply (lstrip_subst a b v x).
  - apply rstrip_fixed_rev. apply rstrip_fixed_rev in Ra, Rv.
    rewrite !rev_app_distr, <- app_assoc.
    rewrite rev_app_distr in Ra. cbn [rev] in Ra. rewrite <- app_assoc in Ra.
    apply (lstrip_subst (rev b) (rev a) (rev v) x); [exact Ra | exact Rv |].
    intros E. apply Hne. apply (f_equal (@rev char)) in E.
    now rewrite rev_involutive in E.
Qed.

(** The line of a joined text that holds a given character, which is
    no part of a line break, and the text with that character replaced. *)
Lemma join_split_at (x : char) :
  x <> CR -> x <> LF ->
  forall ls a b, join CRLF ls = a ++ x :: b ->
  exists ls1 la lb ls2,
    ls = ls1 ++ (la ++ x :: lb) :: ls2 /\
    forall mid, a ++ mid ++ b = join CRLF (ls1 ++ (la ++ mid ++ lb) :: ls2).
Proof.
  intros HCR HLF. induction ls as [|l ls IH]; intros a b H.
  - destruct a; discriminate.
  - destruct ls as [|l2 ls'].
    + cbn [join] in H. subst l. exists [], a, b, []. split; reflexivity.
    + rewrite join_cons in H by discriminate.
      apply app_eq_app in H. destruct H as (l0 & [[H1 H2] | [H1 H2]]).
      * destruct l0 as [|x' lb].
        { injection H2 as H2 _. congruence. }
        injection H2 as -> ->.
        exists [], a, lb, (l2 :: ls'). split; [now rewrite H1|].
        intros mid. cbn [app]. rewrite join_cons by discriminate.
        now rewrite <- !app_assoc.
      * destruct l0 as [|c0 [|c1 a'']].
        { injection H2 as H2 _. congruence. }
        { injection H2 as _ H2 _. congruence. }
        injection H2 as <- <- H2.
        destruct (IH a'' b H2) as (ls1 & la & lb & ls2 & E & Hmid).
        exists (l :: ls1), la, lb, ls2. split; [cbn [app]; now rewrite E|].
        intros mid. cbn [app]. rewrite join_cons by (destruct ls1; discriminate).
        rewrite <- Hmid, H1, <- !app_assoc. reflexivity.
Qed.

Lemma hole_char_plain :
  hole_char <> CR /\ hole_char <> LF /\ is_space hole_char = false.
Proof. repeat split; discriminate. Qed.

(** A clean value in place of a letter keeps a text line-normalized. *)
Lemma line_normalized_subst (a b v : str) :
  clean_value v ->
  line_normalized (a ++ hole_char :: b) -> line_normalized (a ++ v ++ b).
Proof.
  intros (Hne & Hno & Hlf) [Hs (ls & E & F)].
  split; [now apply (no_outer_space_subst a b v hole_char)|].
  destruct hole_char_plain as (HCR & HLF & _).
  destruct (join_split_at hole_char HCR HLF ls a b (eq_sym E))
    as (ls1 & la & lb & ls2 & -> & Hmid).
  exists (ls1 ++ (la ++ v ++ lb) :: ls2). split; [apply Hmid|].
  apply Forall_app in F. destruct F as [F1 F2].
  apply Forall_cons_iff in F2. destruct F2 as [[Hl Hf] F2].
  apply Forall_app. split; [exact F1|]. constructor; [|exact F2]. split.
  - now apply (no_outer_space_subst la lb v hole_char).
  - intros HIn. apply in_app_or in HIn. destruct HIn as [HIn | HIn].
    + apply Hf. apply in_or_app. now left.
    + apply in_app_or in HIn. destruct HIn as [HIn | HIn]; [tauto|].
      apply Hf. apply in_or_app. right. now right.
Qed.

Lemma fill_line_normalized (ps : list piece) :
  forall args out pre,
  fill ps args = Ok out ->
  Forall (fun a => clean_value (render a)) args ->
  line_normalized (pre ++ abstract ps) -> line_normalized (pre ++ out).
Proof.
  induction ps as [|[s|k] ps IH]; intros args out pre H Ha Hn;
    cbn [fill abstract] in *.
  - destruct args; [|discriminate]. now injection H as <-.
  - destruct (fill ps args) as [out'|] eqn:E; [|discriminate].
    injection H as <-. rewrite app_assoc in *. eapply IH; eauto.
  - destruct args as [|a0 args]; [discriminate|].
    assert (H' : match fill ps args with
                 | Ok out' => Ok (render a0 ++ out')
                 | Raise e => Raise e
                 end = Ok out) by (destruct k, a0; congruence || exact H).
    destruct (fill ps args) as [out'|] eqn:E; [|discriminate].
    injection H' as <-. inversion Ha as [|? ? Ha0 Ha']; subst.
    rewrite app_assoc. eapply IH; [exact E | exact Ha' |].
    rewrite <- app_assoc. now apply line_normalized_subst.
Qed.

(** A format whose skeleton [prepare] leaves as it is gives a
    line-normalized output for clean values. *)
Lemma format_line_normalized (fmt : str) (args : list value) (out : str) :
  accepted fmt args = true ->
  str_eqb (prepare (skeleton fmt)) (skeleton fmt) = true ->
  Forall (fun a => clean_value (render a)) args ->
  format fmt args = Ok out -> line_normalized out.
Proof.
  unfold accepted, skeleton.
  destruct (parse fmt) as [ps|] eqn:E; [|discriminate].
  intros _ Hs Ha. rewrite (format_parse fmt ps args E). intros Hf.
  apply str_eqb_eq in Hs.
  apply (fill_line_normalized ps args out [] Hf Ha).
  cbn [app]. rewrite <- Hs. apply prepare_line_normalized.
Qed.

Lemma sign_or_digit_not_space (x : char) :
  is_sign_or_digit x = true -> is_space x = false /\ x <> LF.
Proof.
  unfold is_sign_or_digit.
  rewrite orb_true_iff, andb_true_iff, N.eqb_eq, !N.leb_le. intros H.
  assert (E : (x = 45 \/ x = 48 \/ x = 49 \/ x = 50 \/ x = 51 \/ x = 52 \/
               x = 53 \/ x = 54 \/ x = 55 \/ x = 56 \/ x = 57)%N) by lia.
  repeat (destruct E as [-> | E]; [split; [reflexivity | discriminate]|]).
  subst. split; [reflexivity | discriminate].
Qed.

Lemma no_space_no_outer_space (v : str) :
  Forall (fun x => is_space x = false) v -> no_outer_space v.
Proof.
  intros H. split.
  - apply lstrip_fixed. destruct H as [|x v Hx _]; [now left|].
    right. now exists x, v.
  - induction H as [|x v Hx Hv IH]; [reflexivity|].
    rewrite rstrip_cons, IH, Hx. destruct v; reflexivity.
Qed.

(** A printed integer is a clean value. *)
Lemma str_of_int_clean (z : Z) : clean_value (str_of_int z).
Proof.
  pose proof (str_of_int_chars z) as H.
  split; [apply str_of_int_not_nil|]. split.
  - apply no_space_no_outer_space. eapply Forall_impl; [|exact H].
    intros x Hx. now apply sign_or_digit_not_space.
  - intros HIn. rewrite Forall_forall in H.
    now destruct (sign_or_digit_not_space LF (H LF HIn)).
Qed.

Lemma values_clean (c : call) :
  clean_value (user_of c) -> clean_value (user_name_of c) ->
  Forall (fun a => clean_value (render a)) (text_values c) /\
  Forall (fun a => clean_value (render a)) (html_values c).
Proof.
  intros Hu Hn.
  destruct c as [u n | u n ls lr ts tr | u n];
    cbn [text_values html_values user_of user_name_of] in *;
    try destruct (ls >? 0)%Z; split;
    repeat (apply Forall_cons;
            [cbn [render]; assumption || apply str_of_int_clean|]);
    apply Forall_nil.
Qed.


Lemma lit_clean_value (v : str) :
  negb (is_empty v) && forallb (fun x => negb (is_space x)) v = true ->
  clean_value v.
Proof.
  intros H. apply andb_true_iff in H. destruct H as [Hne Hv].
  rewrite forallb_forall in Hv.
  assert (F : Forall (fun x => is_space x = false) v).
  { apply Forall_forall. intros x Hx. now apply negb_true_iff, Hv. }
  split; [destruct v; [discriminate | discriminate]|].
  split; [now apply no_space_no_outer_space|].
  intros HIn. rewrite Forall_forall in F. specialize (F LF HIn). discriminate.
Qed.


(* ================================================================== *)
(** ** More on [prepare] *)

(** X1: [prepare] returns a line-normalized string for every input,
    and it returns its input unchanged exactly when the input is
    line-normalized already. *)
Theorem prepare_fixed_points (s : str) :
  line_normalized (prepare s) /\ (prepare s = s <-> line_normalized s).
Proof.
  split; [apply prepare_line_normalized|]. split.
  - intros E. rewrite <- E. apply prepare_line_normalized.
  - intros [Hs (ls & E & F)]. destruct ls as [|l ls].
    + rewrite E. reflexivity.
    + unfold prepare. rewrite E at 1.
      rewrite lines_roundtrip by (assumption || discriminate).
      rewrite <- E. now apply strip_fixed.
Qed.

Lemma blank_app (a b : str) : blank (a ++ b) = blank a && blank b.
Proof. apply forallb_app. Qed.

Lemma blank_rev (s : str) : blank (rev s) = blank s.
Proof.
  induction s as [|c s IH]; [reflexivity|]. cbn [rev].
  rewrite blank_app, IH. cbn [blank forallb]. now rewrite andb_true_r, andb_comm.
Qed.

Lemma lstrip_nil_iff (s : str) : lstrip s = [] <-> blank s = true.
Proof.
  induction s as [|c s IH]; cbn [lstrip blank forallb]; [tauto|].
  destruct (is_space c); [exact IH|]. split; discriminate.
Qed.

Lemma blank_lstrip (s : str) : blank (lstrip s) = blank s.
Proof.
  induction s as [|c s IH]; [reflexivity|]. cbn [lstrip].
  destruct (is_space c) eqn:E; [|reflexivity].
  rewrite IH. cbn [blank forallb]. now rewrite E.
Qed.

Lemma strip_nil_iff (s : str) : strip s = [] <-> blank s = true.
Proof.
  assert (E : blank s = blank (rev (lstrip s)))
    by now rewrite blank_rev, blank_lstrip.
  rewrite E, <- lstrip_nil_iff. unfold strip, rstrip. split; intros H.
  - apply (f_equal (@rev char)) in H. now rewrite rev_involutive in H.
  - now rewrite H.
Qed.

Lemma blank_strip (s : str) : blank (strip s) = blank s.
Proof.
  destruct (blank s) eqn:E.
  - apply strip_nil_iff in E. now rewrite E.
  - destruct (blank (strip s)) eqn:E'; [|reflexivity].
    apply strip_nil_iff in E'. rewrite strip_idem in E'.
    apply strip_nil_iff in E'. congruence.
Qed.

Lemma blank_join (ls : list str) :
  blank (join CRLF ls) = forallb blank ls.
Proof.
  induction ls as [|l ls IH]; [reflexivity|].
  destruct ls as [|l2 ls'].
  - cbn [join forallb]. now rewrite andb_true_r.
  - rewrite join_cons by discriminate. rewrite !blank_app, IH. reflexivity.
Qed.

Lemma blank_split (s : str) : forallb blank (split LF s) = blank s.
Proof.
  induction s as [|c s IH]; [reflexivity|]. cbn [split].
  destruct (char_eqb c LF) eqn:E.
  - apply char_eqb_eq in E. subst c. cbn [forallb blank]. exact IH.
  - pose proof (split_not_nil LF s) as Hne.
    destruct (split LF s) as [|l ls]; [congruence|].
    change (is_space c && blank l && forallb blank ls =
            is_space c && blank s).
    rewrite <- IH. cbn [forallb]. now rewrite andb_assoc.
Qed.

(** X2: [prepare] returns the empty string exactly for the texts that
    hold nothing but whitespace, the empty text among them. *)
Theorem prepare_empty_iff_blank (s : str) :
  prepare s = [] <-> blank s = true.
Proof.
  unfold prepare. rewrite strip_nil_iff, blank_join, <- blank_split.
  assert (E : forall ls, forallb blank (map strip ls) = forallb blank ls).
  { induction ls as [|l ls IH]; [reflexivity|]. cbn [map forallb].
    now rewrite blank_strip, IH. }
  now rewrite E.
Qed.

Lemma visible_app (a b : str) : visible (a ++ b) = visible a ++ visible b.
Proof. apply filter_app. Qed.

Lemma visible_rev (s : str) : visible (rev s) = rev (visible s).
Proof.
  induction s as [|c s IH]; [reflexivity|]. cbn [rev].
  rewrite visible_app, IH. cbn [visible filter].
  destruct (negb (is_space c)); cbn [rev]; [reflexivity|].
  now rewrite app_nil_r.
Qed.

Lemma visible_lstrip (s : str) : visible (lstrip s) = visible s.
Proof.
  induction s as [|c s IH]; [reflexivity|]. cbn [lstrip].
  destruct (is_space c) eqn:E; [|reflexivity].
  rewrite IH. cbn [visible filter]. now rewrite E.
Qed.

Lemma visible_strip (s : str) : visible (strip s) = visible s.
Proof.
  unfold strip, rstrip.
  now rewrite visible_rev, visible_lstrip, visible_rev, rev_involutive,
    visible_lstrip.
Qed.

Lemma visible_join (ls : list str) :
  visible (join CRLF ls) = concat (map visible ls).
Proof.
  induction ls as [|l ls IH]; [reflexivity|].
  destruct ls as [|l2 ls'].
  - cbn [join map concat]. now rewrite app_nil_r.
  - rewrite join_cons by discriminate. rewrite !visible_app, IH. reflexivity.
Qed.

Lemma visible_split (s : str) :
  concat (map visible (split LF s)) = visible s.
Proof.
  induction s as [|c s IH]; [reflexivity|]. cbn [split].
  destruct (char_eqb c LF) eqn:E.
  - apply char_eqb_eq in E. subst c. cbn [map concat]. exact IH.
  - pose proof (split_not_nil LF s) as Hne.
    destruct (split LF s) as [|l ls]; [congruence|].
    assert (V : forall x, visible (c :: x) =
                if negb (is_space c) then c :: visible x else visible x)
      by reflexivity.
    cbn [map concat]. rewrite !V, <- IH. cbn [map concat].
    destruct (negb (is_space c)); reflexivity.
Qed.

(** X3: [prepare] adds, drops and reorders nothing but whitespace: the
    characters that are not whitespace are those of the input, in the
    same order. *)
Theorem prepare_keeps_visible (s : str) : visible (prepare s) = visible s.
Proof.
  unfold prepare. rewrite visible_strip, visible_join, map_map.
  rewrite <- visible_split. f_equal. apply map_ext. apply visible_strip.
Qed.

Lemma split_join_lines (ls : list str) :
  ls <> [] -> Forall (fun l => ~ In LF l) ls -> split LF (join [LF] ls) = ls.
Proof.
  intros Hne H. revert Hne.
  induction H as [|l ls Hl Hls IH]; intros Hne; [now exfalso; apply Hne|].
  destruct ls as [|l2 ls'].
  - cbn [join]. now apply split_free.
  - rewrite join_cons by discriminate. cbn [app].
    rewrite split_app_sep by assumption. f_equal. apply IH. discriminate.
Qed.

(** X4: the indentation of the lines and the whitespace at their ends
    do not matter to [prepare]: two texts whose lines agree once
    stripped are prepared to the same string. *)
Theorem prepare_ignores_indentation (la lb : list str) :
  Forall (fun l => ~ In LF l) la -> Forall (fun l => ~ In LF l) lb ->
  Forall2 (fun a b => strip a = strip b) la lb ->
  prepare (join [LF] la) = prepare (join [LF] lb).
Proof.
  intros Ha Hb H.
  assert (E : map strip la = map strip lb).
  { clear Ha Hb. induction H as [|a b la lb Hab _ IH]; [reflexivity|].
    cbn [map]. now rewrite Hab, IH. }
  destruct H as [|a b la lb Hab H]; [reflexivity|].
  unfold prepare. rewrite !split_join_lines by (assumption || discriminate).
  now rewrite E.
Qed.

(** Two indented lines with a blank one between them, and the same
    lines flush left. *)
Lemma prepare_ignores_indentation_witness :
  prepare (join [LF] [lit "    Dear %s,  "; lit "  "; lit "      bye"]) =
  prepare (join [LF] [lit "Dear %s,"; []; lit "bye"]).
Proof.
  apply prepare_ignores_indentation.
  - repeat constructor; intros H; vm_compute in H; intuition discriminate.
  - repeat constructor; intros H; vm_compute in H; intuition discriminate.
  - repeat constructor.
Defined.

(** Splitting a concatenation: the last piece of the first part and the
    first piece of the second make one piece. *)
Lemma split_app (sep : char) (a b : str) :
  split sep (a ++ b) =
  removelast (split sep a) ++
  (last (split sep a) [] ++ hd [] (split sep b)) :: tl (split sep b).
Proof.
  induction a as [|c a IH]; cbn [app split].
  - pose proof (split_not_nil sep b) as Hb.
    destruct (split sep b); [congruence | reflexivity].
  - rewrite IH. pose proof (split_not_nil sep a) as Ha.
    destruct (char_eqb c sep); destruct (split sep a) as [|l ls];
      try congruence; destruct ls; reflexivity.
Qed.

Lemma strip_cons_space (c : char) (l : str) :
  is_space c = true -> strip (c :: l) = strip l.
Proof. intros E. unfold strip. cbn [lstrip]. now rewrite E. Qed.

Lemma rstrip_nil_iff (s : str) : rstrip s = [] <-> blank s = true.
Proof.
  unfold rstrip. rewrite <- blank_rev, <- lstrip_nil_iff. split; intros H.
  - apply (f_equal (@rev char)) in H. now rewrite rev_involutive in H.
  - now rewrite H.
Qed.

Lemma strip_app_blank (x y : str) :
  blank y = true -> strip (x ++ y) = strip x.
Proof.
  intros Hy. unfold strip. rewrite lstrip_app.
  destruct (lstrip x) as [|c r] eqn:E; cbn [is_empty].
  - apply lstrip_nil_iff in Hy. now rewrite Hy.
  - rewrite rstrip_app. apply rstrip_nil_iff in Hy. now rewrite Hy.
Qed.

Lemma strip_blank_lines (ls : list str) :
  forallb blank ls = true -> map strip ls = repeat [] (length ls).
Proof.
  induction ls as [|l ls IH]; [reflexivity|]. cbn [forallb map length repeat].
  intros H. apply andb_true_iff in H. destruct H as [Hl Hls].
  apply strip_nil_iff in Hl. now rewrite Hl, IH.
Qed.

Lemma strip_lines_blank_l (a s : str) :
  blank a = true ->
  exists k, map strip (split LF (a ++ s)) =
            repeat [] k ++ map strip (split LF s).
Proof.
  induction a as [|c a IH]; intros H; [now exists 0|].
  cbn [blank forallb] in H. apply andb_true_iff in H. destruct H as [Hc Ha].
  destruct (IH Ha) as [k E]. cbn [app split].
  destruct (char_eqb c LF).
  - exists (S k). cbn [map repeat app]. now rewrite E.
  - exists k. rewrite <- E.
    pose proof (split_not_nil LF (a ++ s)) as Hne.
    destruct (split LF (a ++ s)) as [|l ls]; [congruence|].
    cbn [map]. now rewrite strip_cons_space.
Qed.

Lemma strip_lines_blank_r (s b : str) :
  blank b = true ->
  exists k, map strip (split LF (s ++ b)) =
            map strip (split LF s) ++ repeat [] k.
Proof.
  intros Hb. rewrite <- blank_split in Hb. rewrite split_app.
  pose proof (split_not_nil LF b) as Hne.
  destruct (split LF b) as [|hb tb]; [congruence|].
  cbn [forallb hd tl] in *. apply andb_true_iff in Hb. destruct Hb as [Hh Ht].
  exists (length tb). rewrite map_app. cbn [map].
  rewrite strip_app_blank, (strip_blank_lines tb) by assumption.
  rewrite (app_removelast_last [] (split_not_nil LF s)) at 3.
  rewrite map_app, <- app_assoc. reflexivity.
Qed.

Lemma trim_l_blank_front (k : nat) (ls : list str) :
  trim_l (repeat [] k ++ ls) = trim_l ls.
Proof. induction k as [|k IH]; [reflexivity | exact IH]. Qed.

Lemma trim_r_blank_back (k : nat) (ls : list str) :
  trim_r (ls ++ repeat [] k) = trim_r ls.
Proof.
  induction ls as [|l ls IH]; cbn [app trim_r].
  - induction k as [|k IH]; [reflexivity|]. cbn [repeat trim_r].
    now rewrite IH.
  - now rewrite IH.
Qed.

Lemma trim_blank_back (k : nat) (ls : list str) :
  trim_r (trim_l (ls ++ repeat [] k)) = trim_r (trim_l ls).
Proof.
  induction ls as [|l ls IH]; cbn [app trim_l].
  - rewrite <- (app_nil_r (repeat [] k)), trim_l_blank_front. reflexivity.
  - destruct (is_empty l); [exact IH|].
    change (l :: ls ++ repeat [] k) with ((l :: ls) ++ repeat [] k).
    apply trim_r_blank_back.
Qed.

(** X5: whitespace around a text, blank lines included, does not
    matter to [prepare]. *)
Theorem prepare_ignores_blank_ends (a s b : str) :
  blank a = true -> blank b = true -> prepare (a ++ s ++ b) = prepare s.
Proof.
  intros Ha Hb. rewrite !prepare_trimmed. f_equal.
  destruct (strip_lines_blank_l a (s ++ b) Ha) as [k ->].
  destruct (strip_lines_blank_r s b Hb) as [j ->].
  rewrite trim_l_blank_front. apply trim_blank_back.
Qed.

(** A line between a blank line and an indented blank end, as in the
    template literals. *)
Lemma prepare_ignores_blank_ends_witness :
  prepare ((LF :: lit "  ") ++ lit "Dear %s," ++ (LF :: lit "      ")) =
  prepare (lit "Dear %s,").
Proof. apply prepare_ignores_blank_ends; reflexivity. Defined.

(* ================================================================== *)
(** ** The emails, line by line *)

Ltac fill_body fmt :=
  erewrite (format_parse fmt) by (vm_compute; reflexivity);
  cbn [fill render].

(** X6: [get_alert] returns, for every user id and name, the subject
    "[Crowdcast] Crowdcast Needs Your Help" and the two bodies below:
    the alert and the unsubscribe footer, flush left, with CRLF between
    the lines, the name and the id put in as they are. *)
Theorem alert_email (u n : str) :
  run (Alert u n) =
  Ok (lit "[Crowdcast] Crowdcast Needs Your Help",
      join CRLF
        [ lit "Dear " ++ n ++ lit ",";
          [];
          lit "[alert text here]";
          [];
          lit "-The DELPHI Team";
          [];
          lit "----------";
          [];
          lit "[This is an automated message. To edit your email preferences or to";
          lit "stop receiving these emails, follow the unsubscribe link below.]";
          [];
          lit "Unsubscribe: https://delphi.cmu.edu/crowdcast/preferences.php?user=" ++ u ],
      join CRLF
        [ lit "<p>";
          lit "Dear " ++ n ++ lit ",";
          lit "</p><p>";
          lit "[alert text here]";
          lit "</p><p>";
          lit "-The DELPHI Team";
          lit "</p>";
          [];
          lit "<hr>";
          lit "<p style=" ++ dq ++ lit "color: #666; font-size: 0.8em;" ++ dq ++ lit ">";
          lit "[This is an automated message. To edit your email preferences or to";
          lit "stop receiving these emails, click the unsubscribe link below.]";
          lit "<br>";
          lit "<a href=" ++ dq ++ lit "https://delphi.cmu.edu/crowdcast/preferences.php?user=" ++ u ++ dq ++ lit ">";
          lit "Unsubscribe</a>";
          lit "</p>" ]).
Proof.
  rewrite run_eq. cbn [kind_of text_values html_values selected].
  fill_body (prepare (text_template KAlert)).
  fill_body (prepare (html_template KAlert)).
  cbn [join]. rewrite !app_nil_r, <- !app_assoc. reflexivity.
Qed.

(** X7: [get_reminder] returns, for every user id and name, the
    subject "[Crowdcast] Forecasts Needed (Deadline: Monday 10AM)" and
    the two bodies below; the id is in the text once and in the html
    twice, before the footer. *)
Theorem reminder_email (u n : str) :
  run (Reminder u n) =
  Ok (lit "[Crowdcast] Forecasts Needed (Deadline: Monday 10AM)",
      join CRLF
        [ lit "Dear " ++ n ++ lit ",";
          [];
          lit "This is just a friendly reminder that your influenza-like-illness (ILI)";
          lit "forecasts are due by 10:00AM (ET) on Monday. Thank you so much for your";
          lit "support and cooperation!";
          [];
          lit "To login and submit your forecasts, visit";
          lit "https://delphi.cmu.edu/crowdcast and enter your User ID: " ++ u ++ lit ".";
          [];
          lit "Happy Forecasting!";
          [];
          lit "-The DELPHI Team";
          [];
          lit "----------";
          [];
          lit "[This is an automated message. To edit your email preferences or to";
          lit "stop receiving these emails, follow the unsubscribe link below.]";
          [];
          lit "Unsubscribe: https://delphi.cmu.edu/crowdcast/preferences.php?user=" ++ u ],
      join CRLF
        [ lit "<p>";
          lit "Dear " ++ n ++ lit ",";
          lit "</p><p>";
          lit "This is just a friendly reminder that your influenza-like-illness";
          lit "(ILI) forecasts are due by <b>10:00AM (ET) on Monday</b>. Thank you";
          lit "so much for your support and cooperation!";
          lit "</p><p>";
          lit "To login and submit your forecasts, click <a";
          lit "href=" ++ dq ++ lit "https://delphi.cmu.edu/crowdcast/launch.php?user=" ++ u ++ dq ++ lit ">here</a>";
          lit "or visit https://delphi.cmu.edu/crowdcast/ and enter your User ID: " ++ u;
          lit "</p><p>";
          lit "Happy Forecasting!";
          lit "<br>";
          lit "-The DELPHI Team";
          lit "</p>";
          [];
          lit "<hr>";
          lit "<p style=" ++ dq ++ lit "color: #666; font-size: 0.8em;" ++ dq ++ lit ">";
          lit "[This is an automated message. To edit your email preferences or to";
          lit "stop receiving these emails, click the unsubscribe link below.]";
          lit "<br>";
          lit "<a href=" ++ dq ++ lit "https://delphi.cmu.edu/crowdcast/preferences.php?user=" ++ u ++ dq ++ lit ">";
          lit "Unsubscribe</a>";
          lit "</p>" ]).
Proof.
  rewrite run_eq. cbn [kind_of text_values html_values selected].
  fill_body (prepare (text_template KReminder)).
  fill_body (prepare (html_template KReminder)).
  cbn [join]. rewrite !app_nil_r, <- !app_assoc. reflexivity.
Qed.

(** X8: [get_notification] returns, for all arguments, the subject
    "[Crowdcast] New Data Available (Deadline: Monday 10 AM)" and the
    bodies below: with [last_score > 0] the ones that hold the score
    section, with total_score and total_rank in decimal, otherwise the
    ones without it, where the text keeps the blank lines around the
    marker. *)
Theorem notification_email (u n : str) (ls lr ts tr : Z) :
  run (Notification u n ls lr ts tr) =
  if (ls >? 0)%Z then
    Ok (lit "[Crowdcast] New Data Available (Deadline: Monday 10 AM)",
        join CRLF
          [ lit "Dear " ++ n ++ lit ",";
            [];
            lit "The CDC has released another week of influenza-like-illness (ILI)";
            lit "surveillance data. A new round of covid19-related forecasting is now";
            lit "underway, and we need your forecasts! We are asking you to please";
            lit "submit your forecasts by 10:00 AM (ET) this coming Monday. Thank you so";
            lit "much for your support and cooperation!";
            [];
            lit "To login and submit your forecasts, visit";
            lit "https://delphi.cmu.edu/crowdcast/";
            lit "and enter your User ID: " ++ u;
            [];
            [];
            lit "Your overall score is: " ++ str_of_int ts ++ lit " (ranked #" ++ str_of_int tr ++ lit ")";
            [];
            lit "Note: To be listed on the leaderboards, simply enter your initials on";
            lit "the preferences page at";
            lit "https://delphi.cmu.edu/crowdcast/preferences.php?user=" ++ u;
            [];
            lit "You can find the leaderboards at";
            lit "https://delphi.cmu.edu/crowdcast/scores.php";
            [];
            [];
            lit "Thank you again for your participation, and good luck on your";
            lit "forecasts!";
            [];
            lit "Happy Forecasting!";
            lit "-The DELPHI Team";
            [];
            lit "----------";
            [];
            lit "[This is an automated message. To edit your email preferences or to";
            lit "stop receiving these emails, follow the unsubscribe link below.]";
            [];
            lit "Unsubscribe: https://delphi.cmu.edu/crowdcast/preferences.php?user=" ++ u ],
        join CRLF
          [ lit "<p>";
            lit "Dear " ++ n ++ lit ",";
            lit "</p><p>";
            lit "The CDC has released another week of influenza-like-illness (ILI)";
            lit "surveillance data. A new round of covid19-related forecasting is now";
            lit "underway, and we need your forecasts! We are asking you to please";
            lit "submit your forecasts by <b>10:00 AM (ET)</b> this coming Monday.";
            lit "Thank you so much for your support and cooperation!";
            lit "</p><p>";
            lit "To login and submit your forecasts, click <a";
            lit "href=" ++ dq ++ lit "https://delphi.cmu.edu/crowdcast/launch.php?user=" ++ u ++ dq ++ lit ">here</a>";
            lit "or visit https://delphi.cmu.edu/crowdcast/ and enter your User ID: " ++ u;
            lit "</p>";
            lit "<p>";
            lit "Your overall score is: " ++ str_of_int ts ++ lit " (<i>ranked #" ++ str_of_int tr ++ lit "</i>)";
            lit "<br>";
            lit "Note: To be listed on the <a";
            lit "href=" ++ dq ++ lit "https://delphi.cmu.edu/crowdcast/scores.php" ++ dq ++ lit ">leaderboards</a>,";
            lit "simply enter your initials on the preferences page <a";
            lit "href=" ++ dq ++ lit "https://delphi.cmu.edu/crowdcast/preferences.php?user=" ++ u ++ dq ++ lit ">";
            lit "here</a>.";
            lit "</p>";
            lit "<p>";
            lit "Thank you again for your participation, and good luck on your";
            lit "forecasts!";
            lit "</p><p>";
            lit "Happy Forecasting!";
            lit "<br>";
            lit "-The DELPHI Team";
            lit "</p>";
            [];
            lit "<hr>";
            lit "<p style=" ++ dq ++ lit "color: #666; font-size: 0.8em;" ++ dq ++ lit ">";
            lit "[This is an automated message. To edit your email preferences or to";
            lit "stop receiving these emails, click the unsubscribe link below.]";
            lit "<br>";
            lit "<a href=" ++ dq ++ lit "https://delphi.cmu.edu/crowdcast/preferences.php?user=" ++ u ++ dq ++ lit ">";
            lit "Unsubscribe</a>";
            lit "</p>" ])
  else
    Ok (lit "[Crowdcast] New Data Available (Deadline: Monday 10 AM)",
        join CRLF
          [ lit "Dear " ++ n ++ lit ",";
            [];
            lit "The CDC has released another week of influenza-like-illness (ILI)";
            lit "surveillance data. A new round of covid19-related forecasting is now";
            lit "underway, and we need your forecasts! We are asking you to please";
            lit "submit your forecasts by 10:00 AM (ET) this coming Monday. Thank you so";
            lit "much for your support and cooperation!";
            [];
            lit "To login and submit your forecasts, visit";
            lit "https://delphi.cmu.edu/crowdcast/";
            lit "and enter your User ID: " ++ u;
            [];
            [];
            [];
            lit "Thank you again for your participation, and good luck on your";
            lit "forecasts!";
            [];
            lit "Happy Forecasting!";
            lit "-The DELPHI Team";
            [];
            lit "----------";
            [];
            lit "[This is an automated message. To edit your email preferences or to";
            lit "stop receiving these emails, follow the unsubscribe link below.]";
            [];
            lit "Unsubscribe: https://delphi.cmu.edu/crowdcast/preferences.php?user=" ++ u ],
        join CRLF
          [ lit "<p>";
            lit "Dear " ++ n ++ lit ",";
            lit "</p><p>";
            lit "The CDC has released another week of influenza-like-illness (ILI)";
            lit "surveillance data. A new round of covid19-related forecasting is now";
            lit "underway, and we need your forecasts! We are asking you to please";
            lit "submit your forecasts by <b>10:00 AM (ET)</b> this coming Monday.";
            lit "Thank you so much for your support and cooperation!";
            lit "</p><p>";
            lit "To login and submit your forecasts, click <a";
            lit "href=" ++ dq ++ lit "https://delphi.cmu.edu/crowdcast/launch.php?user=" ++ u ++ dq ++ lit ">here</a>";
            lit "or visit https://delphi.cmu.edu/crowdcast/ and enter your User ID: " ++ u;
            lit "</p><p>";
            lit "Thank you again for your participation, and good luck on your";
            lit "forecasts!";
            lit "</p><p>";
            lit "Happy Forecasting!";
            lit "<br>";
            lit "-The DELPHI Team";
            lit "</p>";
            [];
            lit "<hr>";
            lit "<p style=" ++ dq ++ lit "color: #666; font-size: 0.8em;" ++ dq ++ lit ">";
            lit "[This is an automated message. To edit your email preferences or to";
            lit "stop receiving these emails, click the unsubscribe link below.]";
            lit "<br>";
            lit "<a href=" ++ dq ++ lit "https://delphi.cmu.edu/crowdcast/preferences.php?user=" ++ u ++ dq ++ lit ">";
            lit "Unsubscribe</a>";
            lit "</p>" ]).
Proof.
  rewrite run_eq. cbn [kind_of text_values html_values selected].
  destruct (ls >? 0)%Z.
  - fill_body (prepare (text_template KScored)).
    fill_body (prepare (html_template KScored)).
    cbn [join]. rewrite !app_nil_r, <- !app_assoc. reflexivity.
  - fill_body (prepare (text_template KPlain)).
    fill_body (prepare (html_template KPlain)).
    cbn [join]. rewrite !app_nil_r, <- !app_assoc. reflexivity.
Qed.

(* ================================================================== *)
(** ** [compose] on any templates *)

Lemma trim_l_app_line (la : list str) (b : str) (lb : list str) :
  b <> [] -> trim_l (la ++ b :: lb) = trim_l la ++ b :: lb.
Proof.
  intros Hb. induction la as [|l la IH]; cbn [app trim_l].
  - destruct b; [congruence | reflexivity].
  - destruct (is_empty l); [exact IH | reflexivity].
Qed.

Lemma trim_r_app_kept (x r : list str) :
  trim_r r <> [] -> trim_r (x ++ r) = x ++ trim_r r.
Proof.
  intros Hr. induction x as [|l x IH]; [reflexivity|].
  cbn [app trim_r]. rewrite IH.
  destruct (x ++ trim_r r) eqn:E; [|reflexivity].
  apply app_eq_nil in E. tauto.
Qed.

Lemma trim_r_line (b : str) (lb : list str) :
  b <> [] -> trim_r (b :: lb) <> [].
Proof.
  intros Hb. cbn [trim_r]. destruct (trim_r lb); [|discriminate].
  destruct b; [congruence | discriminate].
Qed.

Lemma join_app_kept (sep : str) (x r : list str) :
  r <> [] ->
  join sep (x ++ r) = concat (map (fun l => l ++ sep) x) ++ join sep r.
Proof.
  intros Hr. induction x as [|l x IH]; [reflexivity|].
  cbn [app map concat]. rewrite join_cons, IH, <- !app_assoc; [reflexivity|].
  destruct x; [assumption | discriminate].
Qed.

(** A text that opens with a line break and whose next line is not
    blank stays whole at the end of what [prepare] returns, whatever
    comes before it. *)
Lemma prepare_app_tail (tt U' b : str) (lb : list str) :
  map strip (split LF U') = b :: lb -> b <> [] ->
  exists P, prepare (tt ++ LF :: U') = P ++ prepare (LF :: U').
Proof.
  intros E Hb. rewrite !prepare_trimmed.
  assert (S1 : split LF (tt ++ LF :: U') = split LF tt ++ split LF U').
  { rewrite split_app. cbn [split]. rewrite char_eqb_refl. cbn [hd tl].
    rewrite app_nil_r.
    rewrite (app_removelast_last [] (split_not_nil LF tt)) at 3.
    now rewrite <- app_assoc. }
  assert (S2 : split LF (LF :: U') = [] :: split LF U').
  { cbn [split]. now rewrite char_eqb_refl. }
  rewrite S1, S2, map_app. cbn [map]. rewrite E.
  change (strip []) with (@nil char).
  change (trim_l ([] :: b :: lb)) with (trim_l (b :: lb)).
  rewrite trim_l_app_line by assumption.
  assert (T : trim_l (b :: lb) = b :: lb)
    by (destruct b; [congruence | reflexivity]).
  rewrite T.
  rewrite trim_r_app_kept by now apply trim_r_line.
  rewrite join_app_kept by now apply trim_r_line.
  eexists. reflexivity.
Qed.

(** A format cut before a character that ends no conversion is two
    formats, each with its share of the arguments. *)
Lemma format_cut_bounded (c : char) (f2 : str) (n : nat) :
  c <> percent -> c <> conv_s -> c <> conv_d ->
  forall f1, length f1 <= n ->
  forall args out, format (f1 ++ c :: f2) args = Ok out ->
  exists a1 a2 o1 o2,
    args = a1 ++ a2 /\ format f1 a1 = Ok o1 /\
    format (c :: f2) a2 = Ok o2 /\ out = o1 ++ o2.
Proof.
  intros Hp Hs Hd. apply char_eqb_neq in Hp, Hs, Hd.
  induction n as [|n IH]; intros f1 Hlen args out H.
  - destruct f1; [|simpl in Hlen; lia]. exists [], args, [], out. auto.
  - destruct f1 as [|x rest]; [exists [], args, [], out; auto|].
    cbn [app format] in H. cbn [format].
    destruct (char_eqb x percent).
    + destruct rest as [|k rest'].
      { cbn [app] in H. rewrite Hp, Hs, Hd in H. discriminate. }
      assert (Hr : length rest' <= n) by (simpl in Hlen; lia).
      cbn [app] in H.
      destruct (char_eqb k percent);
        [|destruct (char_eqb k conv_s); [|destruct (char_eqb k conv_d)]];
        try discriminate.
      * destruct (format (rest' ++ c :: f2) args) as [out'|] eqn:E;
          [|discriminate]. injection H as <-.
        destruct (IH rest' Hr args out' E) as (a1 & a2 & o1 & o2 & -> & E1 & E2 & ->).
        exists a1, a2, (percent :: o1), o2. rewrite E1. auto.
      * destruct args as [|a args']; [discriminate|].
        destruct (format (rest' ++ c :: f2) args') as [out'|] eqn:E;
          [|discriminate]. injection H as <-.
        destruct (IH rest' Hr args' out' E) as (a1 & a2 & o1 & o2 & -> & E1 & E2 & ->).
        exists (a :: a1), a2, (render a ++ o1), o2. rewrite E1.
        repeat split; [assumption | now rewrite app_assoc].
      * destruct args as [|[s|z] args']; try discriminate.
        destruct (format (rest' ++ c :: f2) args') as [out'|] eqn:E;
          [|discriminate]. injection H as <-.
        destruct (IH rest' Hr args' out' E) as (a1 & a2 & o1 & o2 & -> & E1 & E2 & ->).
        exists (VInt z :: a1), a2, (str_of_int z ++ o1), o2. rewrite E1.
        repeat split; [assumption | now rewrite app_assoc].
    + destruct (format (rest ++ c :: f2) args) as [out'|] eqn:E;
        [|discriminate]. injection H as <-.
      destruct (IH rest (le_S_n _ _ Hlen) args out' E)
        as (a1 & a2 & o1 & o2 & -> & E1 & E2 & ->).
      exists a1, a2, (x :: o1), o2. rewrite E1. auto.
Qed.

Lemma fill_holes (ps : list piece) :
  forall args out, fill ps args = Ok out -> length args = holes ps.
Proof.
  induction ps as [|[s|k] ps IH]; intros args out H; cbn [fill holes] in *.
  - destruct args; [reflexivity | discriminate].
  - destruct (fill ps args) as [out'|] eqn:E; [|discriminate]. eauto.
  - destruct args as [|a0 args]; [discriminate|].
    assert (H' : match fill ps args with
                 | Ok out' => Ok (render a0 ++ out')
                 | Raise e => Raise e
                 end = Ok out) by (destruct k, a0; congruence || exact H).
    destruct (fill ps args) as [out'|] eqn:E; [|discriminate].
    cbn [length]. f_equal. eauto.
Qed.

(** The footer at the end of a body, for any template before it. *)
Lemma footer_of_any_template (tt U : str) (tv : list value) (a : value)
    (t : str) :
  (match U with
   | x :: U' =>
       char_eqb x LF &&
       match map strip (split LF U') with
       | b :: _ => negb (is_empty b)
       | [] => false
       end
   | [] => false
   end
   && match prepare U with
      | c :: _ =>
          negb (char_eqb c percent) && negb (char_eqb c conv_s)
          && negb (char_eqb c conv_d)
      | [] => false
      end
   && match parse (prepare U) with
      | Some ps => Nat.eqb (holes ps) 1
      | None => false
      end) = true ->
  format (prepare (tt ++ U)) (tv ++ [a]) = Ok t ->
  exists ft, format (prepare U) [a] = Ok ft /\ endswith ft t /\
             occurs (render a) ft.
Proof.
  intros C Ht.
  apply andb_true_iff in C. destruct C as [C C3].
  apply andb_true_iff in C. destruct C as [C1 C2].
  destruct U as [|x U']; [discriminate|].
  apply andb_true_iff in C1. destruct C1 as [Hx C1].
  apply char_eqb_eq in Hx. subst x.
  destruct (map strip (split LF U')) as [|b lb] eqn:EL; [discriminate|].
  apply negb_true_iff in C1.
  assert (Hb : b <> []) by (destruct b; [discriminate | discriminate]).
  destruct (prepare_app_tail tt U' b lb EL Hb) as [P EP].
  rewrite EP in Ht.
  destruct (prepare (LF :: U')) as [|c F] eqn:EF; [discriminate|].
  apply andb_true_iff in C2. destruct C2 as [C2 Cd].
  apply andb_true_iff in C2. destruct C2 as [Cp Cs].
  apply negb_true_iff, char_eqb_neq in Cp, Cs, Cd.
  destruct (format_cut_bounded c F (length P) Cp Cs Cd P (le_n _) _ _ Ht)
    as (a1 & a2 & o1 & o2 & Ea & E1 & E2 & ->).
  destruct (parse (c :: F)) as [ps|] eqn:Eps; [|discriminate].
  apply Nat.eqb_eq in C3.
  pose proof E2 as E2'. rewrite (format_parse _ ps _ Eps) in E2'.
  pose proof (fill_holes ps a2 o2 E2') as Hlen. rewrite C3 in Hlen.
  destruct a2 as [|a' [|? ?]]; try discriminate.
  apply app_inj_tail in Ea. destruct Ea as [_ <-].
  exists o2. split; [exact E2|]. split; [now exists o1|].
  apply (fill_occurs ps [a] o2 a E2'). now left.
Qed.

(** X9: for templates of the modelled fragment (the conversions %s, %d
    and %%) and value tuples of strings and integers that match the
    conversions of both prepared templates, [compose] on the loaded
    module returns bodies that end with the rendered unsubscribe
    fragment, text or html, which holds the user id. *)
Theorem compose_appends_footer (user_id subject tt ht : str)
    (tv hv : list value) (pt ph : list piece) :
  parse (prepare (tt ++ frag_text (UNSUBSCRIBE Template))) = Some pt ->
  parse (prepare (ht ++ frag_html (UNSUBSCRIBE Template))) = Some ph ->
  accepts pt (tv ++ [VStr user_id]) = true ->
  accepts ph (hv ++ [VStr user_id]) = true ->
  exists s t h ft fh,
    fst (compose user_id subject tt ht tv hv Template) = Ok (s, t, h) /\
    format (prepare (frag_text (UNSUBSCRIBE Template))) [VStr user_id]
      = Ok ft /\
    format (prepare (frag_html (UNSUBSCRIBE Template))) [VStr user_id]
      = Ok fh /\
    endswith ft t /\ endswith fh h /\
    occurs user_id ft /\ occurs user_id fh.
Proof.
  intros Pt Ph At Ah. rewrite compose_spec. cbn [fst].
  destruct (fill_accepts pt _ At) as [t Et].
  destruct (fill_accepts ph _ Ah) as [h Eh].
  rewrite <- (format_parse _ pt _ Pt) in Et.
  rewrite <- (format_parse _ ph _ Ph) in Eh.
  rewrite Et, Eh.
  destruct (footer_of_any_template tt (frag_text (UNSUBSCRIBE Template)) tv
              (VStr user_id) t) as (ft & Eft & Hft & Oft);
    [vm_compute; reflexivity | exact Et |].
  destruct (footer_of_any_template ht (frag_html (UNSUBSCRIBE Template)) hv
              (VStr user_id) h) as (fh & Efh & Hfh & Ofh);
    [vm_compute; reflexivity | exact Eh |].
  eexists _, t, h, ft, fh. auto 10.
Qed.

(** A template of one line with one conversion, unknown to the module. *)
Lemma compose_appends_footer_witness :
  exists s t h ft,
    fst (compose (lit "u123") (lit "Hello") (lit "Hi %s") (lit "<b>%s</b>")
           [VStr (lit "Jane")] [VStr (lit "Jane")] Template) = Ok (s, t, h) /\
    format (prepare (frag_text (UNSUBSCRIBE Template))) [VStr (lit "u123")]
      = Ok ft /\
    endswith ft t.
Proof.
  assert (Pt : exists pt,
             parse (prepare (lit "Hi %s" ++ frag_text (UNSUBSCRIBE Template)))
             = Some pt /\
             accepts pt ([VStr (lit "Jane")] ++ [VStr (lit "u123")]) = true)
    by (eexists; split; vm_compute; reflexivity).
  assert (Ph : exists ph,
             parse (prepare (lit "<b>%s</b>" ++
                             frag_html (UNSUBSCRIBE Template))) = Some ph /\
             accepts ph ([VStr (lit "Jane")] ++ [VStr (lit "u123")]) = true)
    by (eexists; split; vm_compute; reflexivity).
  destruct Pt as (pt & Pt & At). destruct Ph as (ph & Ph & Ah).
  destruct (compose_appends_footer (lit "u123") (lit "Hello") _ _ _ _
              pt ph Pt Ph At Ah)
    as (s & t & h & ft & fh & E & Eft & _ & Hft & _).
  exists s, t, h, ft. auto.
Defined.

Lemma fill_rejects (ps : list piece) :
  forall args, accepts ps args = false -> fill ps args = Raise TypeError.
Proof.
  induction ps as [|[s|k] ps IH]; intros args H; cbn [accepts fill] in *.
  - destruct args; [discriminate | reflexivity].
  - now rewrite (IH args H).
  - destruct args as [|a args]; [reflexivity|].
    destruct k, a; try reflexivity; now rewrite (IH args H).
Qed.

(** X10: for templates of the modelled fragment, in any store,
    [compose] returns the tagged subject and two bodies when the values
    (with the user id at their end) match the conversions of both
    prepared templates in number and type; otherwise it raises a
    [TypeError]; the store is left as it was in both cases. *)
Theorem compose_raises_on_mismatch (w : Templates)
    (user_id subject tt ht : str) (tv hv : list value)
    (pt ph : list piece) :
  parse (prepare (tt ++ frag_text (UNSUBSCRIBE w))) = Some pt ->
  parse (prepare (ht ++ frag_html (UNSUBSCRIBE w))) = Some ph ->
  if accepts pt (tv ++ [VStr user_id]) && accepts ph (hv ++ [VStr user_id])
  then exists t h,
         compose user_id subject tt ht tv hv w =
         (Ok (SUBJECT_TAG w ++ lit " " ++ subject, t, h), w)
  else compose user_id subject tt ht tv hv w = (Raise TypeError, w).
Proof.
  intros Et Eh. rewrite compose_spec.
  rewrite (format_parse _ pt _ Et), (format_parse _ ph _ Eh).
  destruct (accepts pt (tv ++ [VStr user_id])) eqn:At; cbn [andb].
  - destruct (fill_accepts pt _ At) as [t ->].
    destruct (accepts ph (hv ++ [VStr user_id])) eqn:Ah.
    + destruct (fill_accepts ph _ Ah) as [h ->]. now exists t, h.
    + now rewrite (fill_rejects ph _ Ah).
  - now rewrite (fill_rejects pt _ At).
Qed.

(** The alert templates without the name: a [TypeError]. *)
Lemma compose_raises_on_mismatch_witness :
  compose (lit "u123") (msg_subject (ALERT Template))
    (msg_text (ALERT Template)) (msg_html (ALERT Template)) [] [] Template
  = (Raise TypeError, Template).
Proof.
  assert (Et : exists pt,
             parse (prepare (msg_text (ALERT Template) ++
                             frag_text (UNSUBSCRIBE Template))) = Some pt)
    by (eexists; vm_compute; reflexivity).
  assert (Eh : exists ph,
             parse (prepare (msg_html (ALERT Template) ++
                             frag_html (UNSUBSCRIBE Template))) = Some ph)
    by (eexists; vm_compute; reflexivity).
  destruct Et as [pt Et]. destruct Eh as [ph Eh].
  pose proof (compose_raises_on_mismatch Template (lit "u123")
                (msg_subject (ALERT Template)) _ _ [] [] pt ph Et Eh) as H.
  vm_compute in Et. injection Et as <-.
  exact H.
Defined.

(* ================================================================== *)
(** ** What the notification depends on *)

(** X11: [get_notification] uses [last_score] only through the test
    [last_score > 0], never uses [last_rank], and uses [total_score]
    and [total_rank] only when the test holds: calls that agree on the
    user id, the name and the test, and on both totals when the test
    holds, return the same in every store. *)
Theorem notification_depends_on (u n : str)
    (ls ls' lr lr' ts ts' tr tr' : Z) :
  ((ls > 0)%Z <-> (ls' > 0)%Z) ->
  ((ls > 0)%Z -> ts = ts' /\ tr = tr') ->
  forall w,
    get_notification u n ls lr ts tr w = get_notification u n ls' lr' ts' tr' w.
Proof.
  intros Hs Ht w. unfold get_notification, bind, attr.
  destruct (Z.gtb_spec ls 0) as [H | H], (Z.gtb_spec ls' 0) as [H' | H'];
    try lia.
  - destruct Ht as [-> ->]; [lia | reflexivity].
  - reflexivity.
Qed.

(** Two users' rounds without a score: other totals, same email. *)
Lemma notification_depends_on_witness :
  run (Notification (lit "u123") (lit "Jane") 0 2 100 3) =
  run (Notification (lit "u123") (lit "Jane") (-4) 9 7 50).
Proof.
  unfold run, exec.
  rewrite (notification_depends_on (lit "u123") (lit "Jane")
             0 (-4) 2 9 100 7 3 50); [reflexivity | lia | lia].
Defined.

(* ================================================================== *)
(** ** Line-normalized bodies from any template *)

Lemma lstrip_swap (a w b v : str) :
  lstrip (a ++ w ++ b) = a ++ w ++ b -> lstrip v = v -> v <> [] ->
  lstrip (a ++ v ++ b) = a ++ v ++ b.
Proof.
  intros Ha Hv Hne. apply lstrip_fixed. right.
  destruct a as [|c a].
  - apply lstrip_fixed in Hv. destruct Hv as [-> | (y & v' & -> & E)];
      [congruence|]. now exists y, (v' ++ b).
  - apply lstrip_fixed in Ha. destruct Ha as [Ha | (c' & s' & Ha & E)];
      [discriminate|]. injection Ha as <- _. now exists c, (a ++ v ++ b).
Qed.

(** Whatever stands between [a] and [b], a value without outer
    whitespace in its place keeps the ends of the string. *)
Lemma no_outer_space_swap (a w b v : str) :
  no_outer_space (a ++ w ++ b) -> no_outer_space v -> v <> [] ->
  no_outer_space (a ++ v ++ b).
Proof.
  intros [La Ra] [Lv Rv] Hne. split.
  - now apply (lstrip_swap a w b v).
  - apply rstrip_fixed_rev. apply rstrip_fixed_rev in Ra, Rv.
    rewrite !rev_app_distr, <- app_assoc.
    rewrite !rev_app_distr, <- app_assoc in Ra.
    apply (lstrip_swap (rev b) (rev w) (rev a) (rev v)); [exact Ra | exact Rv |].
    intros E. apply Hne. apply (f_equal (@rev char)) in E.
    now rewrite rev_involutive in E.
Qed.

Lemma join_around (ls1 : list str) (mid : str) (ls2 : list str) :
  join CRLF (ls1 ++ mid :: ls2) =
  concat (map (fun l => l ++ CRLF) ls1) ++ mid ++
  concat (map (fun l => CRLF ++ l) ls2).
Proof.
  induction ls1 as [|l ls1 IH]; cbn [app map concat].
  - revert mid. induction ls2 as [|l2 ls2 IH2]; intros mid.
    + cbn [join map concat]. now rewrite app_nil_r.
    + rewrite join_cons by discriminate. rewrite IH2.
      cbn [map concat]. now rewrite <- !app_assoc.
  - rewrite join_cons by (destruct ls1; discriminate).
    rewrite IH, <- !app_assoc. reflexivity.
Qed.

(** The line of a joined text that holds a given character, with what
    stands before and after that line. *)
Lemma join_line_at (x : char) :
  x <> CR -> x <> LF ->
  forall ls a b, join CRLF ls = a ++ x :: b ->
  exists ls1 la lb ls2,
    ls = ls1 ++ (la ++ x :: lb) :: ls2 /\
    a = concat (map (fun l => l ++ CRLF) ls1) ++ la /\
    b = lb ++ concat (map (fun l => CRLF ++ l) ls2).
Proof.
  intros HCR HLF. induction ls as [|l ls IH]; intros a b H.
  - destruct a; discriminate.
  - destruct ls as [|l2 ls'].
    + cbn [join] in H. subst l. exists [], a, b, [].
      cbn [app map concat]. now rewrite app_nil_r.
    + rewrite join_cons in H by discriminate.
      apply app_eq_app in H. destruct H as (l0 & [[H1 H2] | [H1 H2]]).
      * destruct l0 as [|x' lb].
        { injection H2 as H2 _. congruence. }
        injection H2 as -> ->.
        exists [], a, lb, (l2 :: ls'). split; [now rewrite H1|].
        split; [reflexivity|]. f_equal.
        pose proof (join_around [] l2 ls') as J.
        cbn [app map concat] in J.
        change (CRLF ++ join CRLF (l2 :: ls') =
                concat (map (fun l0 => CRLF ++ l0) (l2 :: ls'))).
        rewrite J. reflexivity.
      * destruct l0 as [|c0 [|c1 a'']].
        { injection H2 as H2 _. congruence. }
        { injection H2 as _ H2 _. congruence. }
        injection H2 as <- <- H2.
        destruct (IH a'' b H2) as (ls1 & la & lb & ls2 & E & Ea & Eb).
        exists (l :: ls1), la, lb, ls2. split; [cbn [app]; now rewrite E|].
        split; [|exact Eb].
        rewrite H1, Ea. cbn [map concat]. now rewrite <- !app_assoc.
Qed.

Lemma plain_char (c : char) :
  is_space c = false -> c <> CR /\ c <> LF /\ clean_value [c].
Proof.
  intros E. repeat split; try (intros ->; discriminate).
  - discriminate.
  - apply lstrip_fixed. right. now exists c, [].
  - rewrite rstrip_single. now rewrite E.
  - intros [-> | []]. discriminate.
Qed.

(** A clean value in place of two characters that are no whitespace
    keeps a text line-normalized. *)
Lemma line_normalized_swap2 (a b v : str) (c1 c2 : char) :
  is_space c1 = false -> is_space c2 = false -> clean_value v ->
  line_normalized (a ++ c1 :: c2 :: b) -> line_normalized (a ++ v ++ b).
Proof.
  intros H1 H2 (Hne & Hno & Hlf) [Hs (ls & E & F)].
  split; [now apply (no_outer_space_swap a [c1; c2] b v)|].
  destruct (plain_char c1 H1) as (HCR & HLF & _).
  destruct (join_line_at c1 HCR HLF ls a (c2 :: b) (eq_sym E))
    as (ls1 & la & lb & ls2 & -> & Ea & Eb).
  destruct lb as [|c lb'].
  { destruct ls2 as [|l2 ls2]; [discriminate|].
    injection Eb as -> _. discriminate. }
  injection Eb as <- ->.
  exists (ls1 ++ (la ++ v ++ lb') :: ls2). split.
  - rewrite join_around, Ea, <- !app_assoc. reflexivity.
  - apply Forall_app in F. destruct F as [F1 F2].
    apply Forall_cons_iff in F2. destruct F2 as [[Hl Hf] F2].
    apply Forall_app. split; [exact F1|]. constructor; [|exact F2]. split.
    + now apply (no_outer_space_swap la [c1; c2] lb' v).
    + intros HIn. apply in_app_or in HIn. destruct HIn as [HIn | HIn].
      * apply Hf. apply in_or_app. now left.
      * apply in_app_or in HIn. destruct HIn as [HIn | HIn]; [tauto|].
        apply Hf. apply in_or_app. right. right. now right.
Qed.

Lemma conversion_chars_plain :
  is_space percent = false /\ is_space conv_s = false /\
  is_space conv_d = false.
Proof. repeat split. Qed.

(** Formatting a line-normalized format with clean values gives a
    line-normalized string. *)
Lemma format_keeps_line_normalized (n : nat) :
  forall fmt, length fmt <= n ->
  forall pre args out,
  line_normalized (pre ++ fmt) ->
  Forall (fun a => clean_value (render a)) args ->
  format fmt args = Ok out ->
  line_normalized (pre ++ out).
Proof.
  destruct conversion_chars_plain as (Pp & Ps & Pd).
  induction n as [|n IH]; intros fmt Hlen pre args out Hn Ha H.
  - destruct fmt; [|simpl in Hlen; lia].
    destruct args; [|discriminate]. now injection H as <-.
  - destruct fmt as [|c rest].
    { destruct args; [|discriminate]. now injection H as <-. }
    cbn [format] in H. destruct (char_eqb c percent) eqn:Ec.
    + apply char_eqb_eq in Ec. subst c.
      destruct rest as [|k rest']; [discriminate|].
      assert (Hr : length rest' <= n) by (simpl in Hlen; lia).
      destruct (char_eqb k percent) eqn:Ek;
        [|clear Ek; destruct (char_eqb k conv_s) eqn:Ek;
          [|clear Ek; destruct (char_eqb k conv_d) eqn:Ek]];
        try discriminate; apply char_eqb_eq in Ek; subst k.
      * destruct (format rest' args) as [out'|] eqn:E; [|discriminate].
        injection H as <-.
        change (pre ++ percent :: out') with (pre ++ [percent] ++ out').
        rewrite app_assoc. apply (IH rest' Hr _ args out'); [|exact Ha|exact E].
        rewrite <- app_assoc.
        apply (line_normalized_swap2 pre rest' [percent] percent percent);
          try assumption. now apply plain_char.
      * destruct args as [|a args']; [discriminate|].
        destruct (format rest' args') as [out'|] eqn:E; [|discriminate].
        injection H as <-. inversion Ha as [|? ? Ha0 Ha']; subst.
        change (match a with VStr s => s | VInt z => str_of_int z end)
          with (render a).
        rewrite app_assoc. apply (IH rest' Hr _ args' out'); [|exact Ha'|exact E].
        rewrite <- app_assoc.
        now apply (line_normalized_swap2 pre rest' (render a) percent conv_s).
      * destruct args as [|[s|z] args']; try discriminate.
        destruct (format rest' args') as [out'|] eqn:E; [|discriminate].
        injection H as <-. inversion Ha as [|? ? Ha0 Ha']; subst.
        rewrite app_assoc. apply (IH rest' Hr _ args' out'); [|exact Ha'|exact E].
        rewrite <- app_assoc.
        now apply (line_normalized_swap2 pre rest' (str_of_int z) percent conv_d).
    + destruct (format rest args) as [out'|] eqn:E; [|discriminate].
      injection H as <-.
      change (pre ++ c :: out') with (pre ++ [c] ++ out').
      rewrite app_assoc.
      apply (IH rest (le_S_n _ _ Hlen) _ args out'); [|exact Ha|exact E].
      now rewrite <- app_assoc.
Qed.

(** X12: in any store, for templates of the modelled fragment (the
    conversions %s, %d and %%) and value tuples of strings and integers
    that match the conversions of both prepared templates: [compose]
    returns, and both bodies are line-normalized whenever the user id
    and the values are not empty, have no leading or trailing
    whitespace and hold no line feed (a printed integer is such a
    value). *)
Theorem compose_bodies_line_normalized (w : Templates)
    (user_id subject tt ht : str) (tv hv : list value)
    (pt ph : list piece) :
  parse (prepare (tt ++ frag_text (UNSUBSCRIBE w))) = Some pt ->
  parse (prepare (ht ++ frag_html (UNSUBSCRIBE w))) = Some ph ->
  accepts pt (tv ++ [VStr user_id]) = true ->
  accepts ph (hv ++ [VStr user_id]) = true ->
  clean_value user_id ->
  Forall (fun a => clean_value (render a)) tv ->
  Forall (fun a => clean_value (render a)) hv ->
  exists s t h,
    compose user_id subject tt ht tv hv w = (Ok (s, t, h), w) /\
    line_normalized t /\ line_normalized h.
Proof.
  intros Pt Ph At Ah Hu Ht Hh. rewrite compose_spec.
  destruct (fill_accepts pt _ At) as [t Et].
  destruct (fill_accepts ph _ Ah) as [h Eh].
  rewrite <- (format_parse _ pt _ Pt) in Et.
  rewrite <- (format_parse _ ph _ Ph) in Eh.
  rewrite Et, Eh. eexists _, t, h. split; [reflexivity|].
  assert (Hlast : Forall (fun a => clean_value (render a)) [VStr user_id])
    by now constructor.
  split.
  - refine (format_keeps_line_normalized _ _ (le_n _) [] _ t _ _ Et);
      [apply prepare_line_normalized | apply Forall_app; now split].
  - refine (format_keeps_line_normalized _ _ (le_n _) [] _ h _ _ Eh);
      [apply prepare_line_normalized | apply Forall_app; now split].
Qed.

(** Templates unknown to the module, a name with a space inside and a
    number. *)
Lemma compose_bodies_line_normalized_witness :
  exists s t h,
    compose (lit "u123") (lit "Hello")
      (LF :: lit "   Hi %s,  " ++ LF :: lit "  you are #%d")
      (lit "<b>%s</b> %d")
      [VStr (lit "Jane Doe"); VInt 7] [VStr (lit "Jane Doe"); VInt 7]
      Template = (Ok (s, t, h), Template) /\
    line_normalized t /\ line_normalized h.
Proof.
  assert (Pt : exists pt,
             parse (prepare ((LF :: lit "   Hi %s,  " ++
                              LF :: lit "  you are #%d") ++
                             frag_text (UNSUBSCRIBE Template))) = Some pt /\
             accepts pt ([VStr (lit "Jane Doe"); VInt 7] ++
                         [VStr (lit "u123")]) = true)
    by (eexists; split; vm_compute; reflexivity).
  assert (Ph : exists ph,
             parse (prepare (lit "<b>%s</b> %d" ++
                             frag_html (UNSUBSCRIBE Template))) = Some ph /\
             accepts ph ([VStr (lit "Jane Doe"); VInt 7] ++
                         [VStr (lit "u123")]) = true)
    by (eexists; split; vm_compute; reflexivity).
  destruct Pt as (pt & Pt & At). destruct Ph as (ph & Ph & Ah).
  assert (J : clean_value (lit "Jane Doe")).
  { split; [discriminate|]. split; [split; reflexivity|].
    intros H. vm_compute in H. intuition discriminate. }
  refine (compose_bodies_line_normalized Template _ (lit "Hello") _ _ _ _
            pt ph Pt Ph At Ah _ _ _);
    [apply lit_clean_value; reflexivity | | ];
    (apply Forall_cons; [exact J|]);
    (apply Forall_cons; [apply str_of_int_clean|]); apply Forall_nil.
Defined.

(* ================================================================== *)
(** ** When a body is line-normalized *)






Lemma breaks_start (ls : list str) :
  concat (map (fun l => CRLF ++ l) ls) = [] \/
  exists r, concat (map (fun l => CRLF ++ l) ls) = CR :: LF :: r.
Proof. destruct ls as [|l ls]; [now left|]. right. cbn. eauto. Qed.













Lemma line_normalized_fixed (s : str) : line_normalized s -> prepare s = s.
Proof.
  intros [Hs (ls & E & F)]. destruct ls as [|l ls].
  - rewrite E. reflexivity.
  - unfold prepare. rewrite E at 1.
    rewrite lines_roundtrip by (assumption || discriminate).
    rewrite <- E. now apply strip_fixed.
Qed.

(** A line feed in a value is kept as it is: not a CRLF, the body is
    not line-normalized. *)
Lemma line_feed_in_name_example :
  exists s t h,
    run (Alert (lit "u123") (lit "Jane" ++ LF :: lit "Doe")) = Ok (s, t, h) /\
    ~ line_normalized t /\ ~ line_normalized h.
Proof.
  eexists _, _, _. split; [vm_compute; reflexivity|].
  assert (H : forall t : str,
             str_eqb (prepare t) t = false -> ~ line_normalized t).
  { intros t Ht Hl. apply line_normalized_fixed, str_eqb_eq in Hl.
    congruence. }
  split; apply H; vm_compute; reflexivity.
Qed.







